(** * The consolidation controller of karpenter, embedded in Rocq

    Source: pkg/controllers/consolidation/controller.go.

    The controller is a client of several collaborators (the API server behind
    [kubeClient], the cluster-state observer, the provisioner with its
    scheduling simulator, the cloud provider, the event recorder).  They are
    modelled as records of oracles.  Every call the controller makes is
    appended to a history, and every oracle answers as a function of the
    history so far, so a collaborator may answer the same question
    differently at different moments of a tick (a node that gains a label
    between two polls, for instance).  What a controller function does is
    then the list of events it emits, in the order of the source.

    Prices and disruption costs are [float64] in the source; they are only
    compared and subtracted, and are modelled as exact rationals [Q].
    Times are integers: seconds since the zero time. *)

From Stdlib Require Import ZArith QArith Lqa List Permutation Sorted Lia.
From stdpp Require Import gmap strings pretty.

Local Open Scope string_scope.
Local Open Scope list_scope.

(** ** Go values *)

(** Go's [error]: the message.  [fmt.Errorf("ctx, %w", err)] puts the message
    of the wrapped error after the context. *)
Definition error := string.

Definition Errorf (context : string) (err : error) : error :=
  String.append context err.

(** A Go pair [(value, error)] with [error] nil or not. *)
Definition Result (A : Type) : Type := error + A.

(** [multierr.Combine] of two errors of which the second is not nil. *)
Definition multierrCombine (e1 : option error) (e2 : error) : error :=
  match e1 with
  | None => e2
  | Some e => String.append e (String.append "; " e2)
  end.

(** Reading a Go [map[string]string]: the zero value when the key is absent. *)
Definition mapGet (m : gmap string string) (k : string) : string :=
  default "" (m !! k).

(** The "comma ok" form [_, ok := m[k]]. *)
Definition mapHas (m : gmap string string) (k : string) : bool :=
  bool_decide (is_Some (m !! k)).

(** ** Label and annotation keys *)

(** Modelled from the spec: the keys and values declared in the API packages
    (v1alpha5, v1alpha1), which are not among the sources; the spec lists the
    provisioner-name, initialized, capacity-type labels, the do-not-consolidate
    annotation and the spot capacity type.  No proof depends on their
    spelling. *)
Definition ProvisionerNameLabelKey : string := "karpenter.sh/provisioner-name".
Definition LabelNodeInitialized : string := "karpenter.sh/initialized".
Definition LabelCapacityType : string := "karpenter.sh/capacity-type".
Definition DoNotConsolidateNodeAnnotationKey : string := "karpenter.sh/do-not-consolidate".
Definition CapacityTypeSpot : string := "spot".
(** [v1.LabelInstanceTypeStable] of the Kubernetes API. *)
Definition LabelInstanceTypeStable : string := "node.kubernetes.io/instance-type".

(** ** Kubernetes objects, as far as the controller reads them *)

(** [metav1.Time]: seconds since the zero time; a nil pointer is [None]. *)
Definition Time := Z.

Definition IsZero (t : option Time) : bool :=
  match t with
  | None => true
  | Some s => (s =? 0)%Z
  end.

Definition Before (t u : Time) : bool := (t <? u)%Z.

Record Node := {
  Name : string;
  Labels : gmap string string;
  Annotations : gmap string string;
  CreationTimestamp : Time;
  DeletionTimestamp : option Time;
  Unschedulable : bool;
}.

(** A pod is touched by the controller only through the predicates of package
    pkg/utils/pod and through its eviction cost.  That package is not among
    the sources, so a pod is represented by what those functions answer on it:
    field [IsTerminal p] is [pod.IsTerminal(p)] and so on. *)
Record Pod := {
  podName : string;
  IsOwnedByNode : bool;
  IsOwnedByDaemonSet : bool;
  IsTerminal : bool;
  IsTerminating : bool;
  HasDoNotEvict : bool;
  IsNotOwned : bool;
  IsProvisionable : bool;
  GetPodEvictionCost : Q;
}.

(** [cloudprovider.InstanceType]: an interface with [Name()] and [Price()]. *)
Record InstanceType := {
  itName : string;
  Price : Q;
}.

(** [v1alpha5.Provisioner].  [Spec.Consolidation] is a pointer to a struct
    whose [Enabled] is a pointer to a bool; [Spec.TTLSecondsUntilExpired] is a
    pointer to an integer. *)
Record Provisioner := {
  provName : string;
  Consolidation : option (option bool);
  TTLSecondsUntilExpired : option Z;
}.

(** [ptr.BoolValue]: false on nil. *)
Definition BoolValue (b : option bool) : bool := default false b.

(** [ptr.Int32Value]: 0 on nil. *)
Definition Int32Value (i : option Z) : Z := default 0%Z i.

(** [state.Node]: the observer's record of a node. *)
Record StateNode := {
  stNode : Node;
}.

(** ReplicaSet, ReplicationController and StatefulSet alike:
    [Spec.Replicas] (a pointer) and [Status.ReadyReplicas]. *)
Record Workload := {
  Replicas : option Z;
  ReadyReplicas : Z;
}.

(** ** The scheduling simulator's values *)

(** [scheduling.Requirements]: [Get key] is a set of values, [Has] its
    membership test. *)
Definition ValueSet := string -> bool.
Definition Requirements := string -> ValueSet.
Definition Get (r : Requirements) (key : string) : ValueSet := r key.
Definition Has (s : ValueSet) (v : string) : bool := s v.

(** [scheduling.Node]: a node the scheduler would launch. *)
Record SchedNode := {
  InstanceTypeOptions : list InstanceType;
  SchedRequirements : Requirements;
  SchedPods : list Pod;
}.

(** [scheduling.InFlightNode]: an existing node with the pods the simulation
    put on it. *)
Record InFlightNode := {
  inflightName : string;
  Pods : list Pod;
}.

Record SchedulerOptions := {
  SimulationMode : bool;
  ExcludeNodes : list string;
}.

Record LaunchOptions := {
  RecordPodNomination : bool;
}.

(** [scheduler.Solve]: new nodes, in-flight nodes, error. *)
Record Scheduler := {
  Solve : list Pod -> Result (list SchedNode * list InFlightNode);
}.

(** The tracker of PodDisruptionBudgets, built by [NewPDBLimits]. *)
Record PDBLimits := {
  CanEvictPods : list Pod -> bool;
}.

(** ** Actions and results (types.go) *)

Inductive consolidateResult :=
| consolidateResultUnknown
| consolidateResultNotPossible
| consolidateResultDelete
| consolidateResultDeleteEmpty
| consolidateResultReplace.

Inductive ProcessResult :=
| ProcessResultNothingToDo
| ProcessResultConsolidated
| ProcessResultFailed.

Record consolidationAction := {
  oldNodes : list Node;
  actDisruptionCost : Q;
  result : consolidateResult;
  replacementNode : option SchedNode;
  savings : Q;
}.

(** The zero value of the struct with only [result] set. *)
Definition actionOf (r : consolidateResult) : consolidationAction :=
  {| oldNodes := []; actDisruptionCost := 0%Q; result := r;
     replacementNode := None; savings := 0%Q |}.

(** The embedded [*v1.Node] is field [cnNode]; the fields [provisioner] and
    [disruptionCost] carry a prefix, since the controller's field and the
    function of those names are declared below. *)
Record candidateNode := {
  cnNode : Node;
  instanceType : InstanceType;
  cnProvisioner : Provisioner;
  cnDisruptionCost : Q;
  pods : list Pod;
}.

(** ** Events: every call to a collaborator, with its answer *)

Inductive Event :=
| EvListProvisioners (r : Result (list Provisioner))
| EvGetInstanceTypes (p : Provisioner) (r : Result (list InstanceType))
| EvListPods (nodeName : string) (r : Result (list Pod))
| EvListReplicaSets (r : Result (list Workload))
| EvListReplicationControllers (r : Result (list Workload))
| EvListStatefulSets (r : Result (list Workload))
| EvNewPDBLimits (r : Result PDBLimits)
| EvNewScheduler (ps : list Pod) (opts : SchedulerOptions) (r : option error)
| EvGetNode (name : string) (r : Result Node)
| EvPatchNode (n : Node) (r : option error)
| EvLaunchNodes (opts : LaunchOptions) (n : option SchedNode) (r : Result (list string))
| EvDeleteNode (n : Node) (r : option error)
| EvTerminatingNodeForConsolidation (n : Node)
| EvLaunchingNodeForConsolidation (n : Node)
| EvWaitingOnReadinessForConsolidation (n : Node)
| EvCounterAdd (counter : string)
| EvLogInfo (msg : string)
| EvLogError (msg : string) (err : error).

Definition History := list Event.

(** ** The collaborators *)

Record KubeClient := {
  ListProvisioners : History -> Result (list Provisioner);
  (** [List] of pods with [MatchingFields{"spec.nodeName": name}] *)
  ListPods : History -> string -> Result (list Pod);
  ListReplicaSets : History -> Result (list Workload);
  ListReplicationControllers : History -> Result (list Workload);
  ListStatefulSets : History -> Result (list Workload);
  GetNode : History -> string -> Result Node;
  (** [Patch] of a node against its persisted copy; the argument is the node
      as it should become *)
  PatchNode : History -> Node -> option error;
  DeleteNode : History -> Node -> option error;
  (** [NewPDBLimits(ctx, kubeClient)]: lists the PodDisruptionBudgets *)
  NewPDBLimits : History -> Result PDBLimits;
}.

Record Cluster := {
  (** the nodes [ForEachNode] visits, in the order it visits them *)
  ForEachNode : History -> list StateNode;
  IsNodeNominated : History -> string -> bool;
}.

Record ProvisionerAPI := {
  NewScheduler :
    History -> list Pod -> list StateNode -> SchedulerOptions -> Result Scheduler;
  LaunchNodes : History -> LaunchOptions -> option SchedNode -> Result (list string);
}.

Record CloudProvider := {
  GetInstanceTypes : History -> Provisioner -> Result (list InstanceType);
}.

(** [clock.Clock]: [Now], in seconds since the zero time. *)
Record Clock := {
  Now : History -> Q;
}.

Record Controller := {
  kubeClient : KubeClient;
  cluster : Cluster;
  provisioner : ProvisionerAPI;
  clock : Clock;
  cloudProvider : CloudProvider;
}.

(** ** The monad of controller code

    A computation sees the history up to its start and returns its value with
    the events it emitted, oldest first. *)

Definition M (A : Type) : Type := History -> A * list Event.

Definition ret {A} (a : A) : M A := fun _ => (a, []).

Definition bind {A B} (m : M A) (f : A -> M B) : M B :=
  fun h =>
    let (a, t1) := m h in
    let (b, t2) := f a (h ++ t1) in
    (b, t1 ++ t2).

Notation "'let!' x ':=' c1 'in' c2" := (bind c1 (fun x => c2))
  (at level 10, x name, c1 at level 100, c2 at level 200).
Notation "'do!' c1 'in' c2" := (bind c1 (fun _ => c2))
  (at level 10, c1 at level 100, c2 at level 200).

(** A call to a collaborator: ask at the current history, record the answer. *)
Definition call {A} (ask : History -> A) (ev : A -> Event) : M A :=
  fun h => let r := ask h in (r, [ev r]).

(** A read of in-memory state, which leaves no event. *)
Definition peek {A} (ask : History -> A) : M A := fun h => (ask h, []).

Definition emit (e : Event) : M unit := fun _ => (tt, [e]).

Definition value {A} (m : M A) (h : History) : A := fst (m h).
Definition trace {A} (m : M A) (h : History) : list Event := snd (m h).

(** [retry.Do(f, retry.Attempts(n), retry.LastErrorOnly(true), ...)] of
    avast/retry-go: [f] is called until it returns nil, at most [n] times, and
    the last error is returned when every attempt failed.  The delays between
    attempts are real time and leave no trace here.  [s] is the state the
    closure [f] keeps between attempts.  ([Attempts(0)] retries forever in
    the library; the controller passes 30.) *)
Fixpoint retryLoop {S} (attempts : nat) (f : S -> M (option error * S)) (s : S)
    (lastErr : option error) : M (option error) :=
  match attempts with
  | O => ret lastErr
  | Datatypes.S n =>
      let! r := f s in
      match r with
      | (None, _) => ret None
      | (Some err, s') => retryLoop n f s' (Some err)
      end
  end.

Definition retryDo {S} (attempts : nat) (f : S -> M (option error * S)) (s : S)
    : M (option error) :=
  retryLoop attempts f s None.

(** Monadic left fold: a Go [for ... range] loop with an accumulator. *)
Fixpoint foldM {A B} (f : B -> A -> M B) (l : list A) (b : B) : M B :=
  match l with
  | [] => ret b
  | x :: l' => let! b' := f b x in foldM f l' b'
  end.

(** ** Helpers of the package that are not among the sources *)

Definition Qltb (x y : Q) : bool := negb (Qle_bool y x).

(** Modelled from the spec: [disruptionCost(ctx, pods)] of helpers.go,
    "DisruptionCost(pods) = sum of GetPodEvictionCost(p)". *)
Definition disruptionCost (ps : list Pod) : Q :=
  fold_right (fun p acc => (GetPodEvictionCost p + acc)%Q) 0%Q ps.

(** Modelled from the spec: [filterByPrice(options, price, inclusive)] of
    helpers.go, "filter that node's allowable instance types to those strictly
    cheaper than the old node's price"; with [inclusive] the equally priced
    ones stay too.  The order of the options is kept. *)
Definition filterByPrice (options : list InstanceType) (price : Q) (inclusive : bool)
    : list InstanceType :=
  List.filter
    (fun it => Qltb (Price it) price || (inclusive && Qeq_bool (Price it) price))
    options.

(** Modelled from the spec: [clamp(min, val, max)] of helpers.go,
    "lifetime-remaining = clamp((TTL - age)/TTL, 0, 1)". *)
Definition clamp (lo val hi : Q) : Q :=
  if Qltb val lo then lo else if Qltb hi val then hi else val.

(** ** The controller *)

Section Consolidation.

Variable c : Controller.

(** Go's [sort.Slice(candidates, less)]: it sorts in place and is not stable,
    so all that is known of its result is the contract stated with the
    theorems that need it. *)
Variable sortSlice :
  (candidateNode -> candidateNode -> bool) -> list candidateNode -> list candidateNode.

Definition counterActionsPerformed : string := "consolidation_actions_performed_total".
Definition counterNodesTerminated : string := "consolidation_nodes_terminated_total".
Definition counterNodesCreated : string := "consolidation_nodes_created_total".

(** *** buildProvisionerMap *)

Definition ProvisionerMap : Type :=
  gmap string Provisioner * gmap string (gmap string InstanceType).

Definition instanceTypesByName (its : list InstanceType) : gmap string InstanceType :=
  fold_left (fun m it => <[itName it := it]> m) its ∅.

Definition buildProvisionerMapStep (acc : Result ProvisionerMap) (p : Provisioner)
    : M (Result ProvisionerMap) :=
  match acc with
  | inl err => ret (inl err)
  | inr (provisioners, instanceTypesByProvisioner) =>
      let! r := call (fun h => GetInstanceTypes (cloudProvider c) h p)
                     (EvGetInstanceTypes p) in
      match r with
      | inl err =>
          ret (inl (Errorf (String.append "listing instance types for "
                              (String.append (provName p) ", ")) err))
      | inr provInstanceTypes =>
          ret (inr (<[provName p := p]> provisioners,
                    <[provName p := instanceTypesByName provInstanceTypes]>
                      instanceTypesByProvisioner))
      end
  end.

Definition buildProvisionerMap : M (Result ProvisionerMap) :=
  let! r := call (ListProvisioners (kubeClient c)) EvListProvisioners in
  match r with
  | inl err => ret (inl (Errorf "listing provisioners, " err))
  | inr items => foldM buildProvisionerMapStep items (inr (∅, ∅))
  end.

(** *** getNodePods *)

Definition getNodePods (nodeName : string) : M (Result (list Pod)) :=
  let! r := call (fun h => ListPods (kubeClient c) h nodeName) (EvListPods nodeName) in
  match r with
  | inl err => ret (inl (Errorf "listing pods, " err))
  | inr items =>
      ret (inr (List.filter
                  (fun p => negb (IsOwnedByNode p || IsOwnedByDaemonSet p || IsTerminal p))
                  items))
  end.

(** *** candidateNodes *)

Definition consolidationEnabled (p : Provisioner) : bool :=
  match Consolidation p with
  | None => false
  | Some enabled => BoolValue enabled
  end.

(** What the callback of [ForEachNode] resolves first: the provisioner and the
    instance type of the node, when the provisioner is known, has
    consolidation enabled and lists the node's instance type. *)
Definition resolveNode (pm : ProvisionerMap) (n : Node)
    : option (Provisioner * InstanceType) :=
  match Labels n !! ProvisionerNameLabelKey with
  | None => None
  | Some provName =>
      match pm.1 !! provName, pm.2 !! provName with
      | Some prov, Some instanceTypeMap =>
          match instanceTypeMap !! mapGet (Labels n) LabelInstanceTypeStable with
          | None => None
          | Some it => if consolidationEnabled prov then Some (prov, it) else None
          end
      | _, _ => None
      end
  end.

(** The callback; the accumulator is the pair of the captured variables
    [nodes] and [uninitializedNodeExists]. *)
Definition candidateNodesVisit (pm : ProvisionerMap) (acc : list candidateNode * bool)
    (n : StateNode) : M (list candidateNode * bool) :=
  let '(nodes, uninitializedNodeExists) := acc in
  match resolveNode pm (stNode n) with
  | None => ret acc
  | Some (prov, it) =>
      if uninitializedNodeExists then ret acc
      else if negb (String.eqb (mapGet (Labels (stNode n)) LabelNodeInitialized) "true")
      then ret (nodes, true)
      else if String.eqb (mapGet (Annotations (stNode n)) DoNotConsolidateNodeAnnotationKey)
                "true"
      then ret acc
      else
        let! nominated := peek (fun h => IsNodeNominated (cluster c) h (Name (stNode n))) in
        if (nominated : bool) then ret acc
        else
          let! r := getNodePods (Name (stNode n)) in
          match r with
          | inl err => do! emit (EvLogError "Determining node pods, " err) in ret acc
          | inr ps =>
              ret (nodes ++ [ {| cnNode := stNode n;
                                 instanceType := it;
                                 cnProvisioner := prov;
                                 pods := ps;
                                 cnDisruptionCost := disruptionCost ps |} ],
                   uninitializedNodeExists)
          end
  end.

Definition candidateNodes : M (Result (list candidateNode)) :=
  let! r := buildProvisionerMap in
  match r with
  | inl err => ret (inl err)
  | inr pm =>
      let! stateNodes := peek (ForEachNode (cluster c)) in
      let! acc := foldM (candidateNodesVisit pm) stateNodes ([], false) in
      if acc.2 then ret (inr []) else ret (inr acc.1)
  end.

(** *** setNodeUnschedulable *)

Definition withUnschedulable (n : Node) (b : bool) : Node :=
  {| Name := Name n; Labels := Labels n; Annotations := Annotations n;
     CreationTimestamp := CreationTimestamp n;
     DeletionTimestamp := DeletionTimestamp n;
     Unschedulable := b |}.

Definition setNodeUnschedulable (nodeName : string) (isUnschedulable : bool)
    : M (option error) :=
  let! r := call (fun h => GetNode (kubeClient c) h nodeName) (EvGetNode nodeName) in
  match r with
  | inl err => ret (Some (Errorf "getting node, " err))
  | inr node =>
      if negb isUnschedulable && negb (IsZero (DeletionTimestamp node)) then ret None
      else if Bool.eqb (Unschedulable node) isUnschedulable then ret None
      else
        let node' := withUnschedulable node isUnschedulable in
        let! r := call (fun h => PatchNode (kubeClient c) h node') (EvPatchNode node') in
        match r with
        | Some err =>
            ret (Some (Errorf (String.append "patching node "
                                 (String.append (Name node) ", ")) err))
        | None => ret None
        end
  end.

(** *** launchReplacementNode *)

(** The closure given to [retry.Do]; its state is whether the [sync.Once]
    has fired. *)
Definition readinessAttempt (nodeName : string) (once : bool)
    : M (option error * bool) :=
  let! r := call (fun h => GetNode (kubeClient c) h nodeName) (EvGetNode nodeName) in
  match r with
  | inl err => ret (Some (Errorf "getting node, " err), once)
  | inr k8Node =>
      do! (if once then ret tt else emit (EvLaunchingNodeForConsolidation k8Node)) in
      if negb (mapHas (Labels k8Node) LabelNodeInitialized)
      then
        do! emit (EvWaitingOnReadinessForConsolidation k8Node) in
        ret (Some "node is not initialized", true)
      else ret (None, true)
  end.

Definition readinessAttempts : nat := 30.

Definition launchReplacementNode (minCost : consolidationAction) : M (option error) :=
  match oldNodes minCost with
  | [old] =>
      let! r := setNodeUnschedulable (Name old) true in
      match r with
      | Some err =>
          ret (Some (Errorf (String.append "cordoning node "
                               (String.append (Name old) ", ")) err))
      | None =>
          let! r := call (fun h => LaunchNodes (provisioner c) h
                                     {| RecordPodNomination := false |}
                                     (replacementNode minCost))
                         (EvLaunchNodes {| RecordPodNomination := false |}
                                        (replacementNode minCost)) in
          match r with
          | inl err => ret (Some err)
          | inr [nodeName] =>
              do! emit (EvCounterAdd counterNodesCreated) in
              let! r := retryDo readinessAttempts (readinessAttempt nodeName) false in
              match r with
              | Some err =>
                  let! r' := setNodeUnschedulable (Name old) false in
                  ret (Some (multierrCombine r'
                               (Errorf "timed out checking node readiness, " err)))
              | None => ret None
              end
          | inr nodeNames =>
              ret (Some (String.append "expected a single node name, got "
                           (pretty (length nodeNames))))
          end
      end
  | ns =>
      ret (Some (String.append "expected a single node to replace, found "
                   (pretty (length ns))))
  end.

(** *** performConsolidation *)

Definition deleteOldNode (oldNode : Node) : M unit :=
  do! emit (EvTerminatingNodeForConsolidation oldNode) in
  let! r := call (fun h => DeleteNode (kubeClient c) h oldNode) (EvDeleteNode oldNode) in
  match r with
  | Some err => emit (EvLogError "Deleting node, " err)
  | None => emit (EvCounterAdd counterNodesTerminated)
  end.

Definition deleteOldNodes (ns : list Node) : M unit :=
  foldM (fun _ n => deleteOldNode n) ns tt.

Definition performConsolidation (action : consolidationAction) : M unit :=
  match result action with
  | consolidateResultDelete | consolidateResultReplace | consolidateResultDeleteEmpty =>
      do! emit (EvCounterAdd counterActionsPerformed) in
      do! emit (EvLogInfo "Consolidating via ") in
      let! launched :=
        match result action with
        | consolidateResultReplace =>
            let! r := launchReplacementNode action in
            match r with
            | Some err =>
                do! emit (EvLogError "Launching replacement node, " err) in ret false
            | None => ret true
            end
        | _ => ret true
        end in
      if (launched : bool) then deleteOldNodes (oldNodes action) else ret tt
  | _ => emit (EvLogError "Invalid disruption action calculated: " "")
  end.

(** *** canBeTerminated *)

Definition podsPreventEviction (node : candidateNode) : option error :=
  (fix loop (ps : list Pod) : option error :=
     match ps with
     | [] => None
     | p :: rest =>
         if IsTerminating p || IsTerminal p || IsOwnedByNode p then loop rest
         else if HasDoNotEvict p then Some "found do-not-evict pod"
         else if IsNotOwned p then Some "found pod with no controller"
         else loop rest
     end) (pods node).

Definition canBeTerminated (node : candidateNode) (pdbs : PDBLimits) : option error :=
  if negb (IsZero (DeletionTimestamp (cnNode node))) then Some "already being deleted"
  else if negb (CanEvictPods pdbs (pods node))
  then Some "not eligible for termination due to PDBs"
  else podsPreventEviction node.

(** *** calculateLifetimeRemaining *)

(** [c.clock.Since(t).Seconds()] *)
Definition sinceSeconds (t : Time) : M Q :=
  peek (fun h => (Now (clock c) h - inject_Z t)%Q).

Definition calculateLifetimeRemaining (node : candidateNode) : M Q :=
  match TTLSecondsUntilExpired (cnProvisioner node) with
  | Some ttl =>
      let! ageInSeconds := sinceSeconds (CreationTimestamp (cnNode node)) in
      let totalLifetimeSeconds := inject_Z ttl in
      let lifetimeRemainingSeconds := (totalLifetimeSeconds - ageInSeconds)%Q in
      ret (clamp 0 (lifetimeRemainingSeconds / totalLifetimeSeconds) 1)%Q
  | None => ret 1%Q
  end.

(** *** nodeConsolidationOptionReplaceOrDelete *)

Definition schedulableCount (inflightNodes : list InFlightNode) : nat :=
  fold_left (fun n inflight => n + length (Pods inflight)) inflightNodes 0.

Definition withInstanceTypeOptions (n : SchedNode) (options : list InstanceType)
    : SchedNode :=
  {| InstanceTypeOptions := options;
     SchedRequirements := SchedRequirements n;
     SchedPods := SchedPods n |}.

(** The function from the answer of [scheduler.Solve] on: which action the
    simulated placement leads to. *)
Definition replaceOrDelete (node : candidateNode) (newNodes : list SchedNode)
    (inflightNodes : list InFlightNode) : consolidationAction :=
  if (length newNodes =? 0)%nat
     && (length (pods node) =? schedulableCount inflightNodes)%nat
  then
    {| oldNodes := [cnNode node];
       actDisruptionCost := disruptionCost (pods node);
       savings := Price (instanceType node);
       result := consolidateResultDelete;
       replacementNode := None |}
  else
    match newNodes with
    | [newNode] =>
        let nodePrice := Price (instanceType node) in
        let options := filterByPrice (InstanceTypeOptions newNode) nodePrice false in
        match options with
        | [] => actionOf consolidateResultNotPossible
        | option0 :: _ =>
            if String.eqb (mapGet (Labels (cnNode node)) LabelCapacityType) CapacityTypeSpot
               && Has (Get (SchedRequirements newNode) LabelCapacityType) CapacityTypeSpot
            then actionOf consolidateResultNotPossible
            else
              {| oldNodes := [cnNode node];
                 actDisruptionCost := disruptionCost (pods node);
                 savings := (nodePrice - Price option0)%Q;
                 result := consolidateResultReplace;
                 replacementNode := Some (withInstanceTypeOptions newNode options) |}
        end
    | _ => actionOf consolidateResultNotPossible
    end.

Definition nodeConsolidationOptionReplaceOrDelete (node : candidateNode)
    : M (consolidationAction * option error) :=
  let! stateNodes := peek (ForEachNode (cluster c)) in
  let opts := {| SimulationMode := true; ExcludeNodes := [Name (cnNode node)] |} in
  let! r := call (fun h => NewScheduler (provisioner c) h (pods node) stateNodes opts)
                 (fun r => EvNewScheduler (pods node) opts
                             (match r with inl err => Some err | inr _ => None end)) in
  match r with
  | inl err =>
      ret (actionOf consolidateResultUnknown, Some (Errorf "creating scheduler, " err))
  | inr scheduler =>
      match Solve scheduler (pods node) with
      | inl err =>
          ret (actionOf consolidateResultUnknown,
               Some (Errorf "simulating scheduling, " err))
      | inr (newNodes, inflightNodes) =>
          ret (replaceOrDelete node newNodes inflightNodes, None)
      end
  end.

(** *** nodeConsolidationActions *)

Definition scaleDisruptionCost (a : consolidationAction) (factor : Q)
    : consolidationAction :=
  {| oldNodes := oldNodes a;
     actDisruptionCost := (actDisruptionCost a * factor)%Q;
     result := result a;
     replacementNode := replacementNode a;
     savings := savings a |}.

Definition nodeConsolidationActions (node : candidateNode) : M consolidationAction :=
  let! lifetimeRemaining := calculateLifetimeRemaining node in
  let! r := nodeConsolidationOptionReplaceOrDelete node in
  do! match r.2 with
      | Some err => emit (EvLogError "Consolidating node (replace), " err)
      | None => ret tt
      end in
  ret (scaleDisruptionCost r.1 lifetimeRemaining).

(** *** byNodeDisruptionCost *)

Definition byNodeDisruptionCost (a b : candidateNode) : bool :=
  if Qeq_bool (cnDisruptionCost a) (cnDisruptionCost b)
  then Before (CreationTimestamp (cnNode a)) (CreationTimestamp (cnNode b))
  else Qltb (cnDisruptionCost a) (cnDisruptionCost b).

(** *** ProcessCluster *)

Definition isDeleteOrReplace (r : consolidateResult) : bool :=
  match r with
  | consolidateResultDelete | consolidateResultReplace => true
  | _ => false
  end.

(** The loop over the sorted, non-empty candidates. *)
Fixpoint consolidateFirst (pdbs : PDBLimits) (candidates : list candidateNode)
    : M (ProcessResult * option error) :=
  match candidates with
  | [] => ret (ProcessResultNothingToDo, None)
  | node :: rest =>
      match canBeTerminated node pdbs with
      | Some _ => consolidateFirst pdbs rest
      | None =>
          let! action := nodeConsolidationActions node in
          if isDeleteOrReplace (result action)
          then
            do! performConsolidation action in
            ret (ProcessResultConsolidated, None)
          else consolidateFirst pdbs rest
      end
  end.

Definition deleteEmptyAction (emptyNodes : list candidateNode) : consolidationAction :=
  {| oldNodes := map cnNode emptyNodes;
     actDisruptionCost := 0%Q;
     result := consolidateResultDeleteEmpty;
     replacementNode := None;
     savings := 0%Q |}.

Definition ProcessCluster : M (ProcessResult * option error) :=
  let! r := candidateNodes in
  match r with
  | inl err => ret (ProcessResultFailed, Some (Errorf "determining candidate nodes, " err))
  | inr candidates =>
      if (length candidates =? 0)%nat then ret (ProcessResultNothingToDo, None)
      else
        let emptyNodes := List.filter (fun n => (length (pods n) =? 0)%nat) candidates in
        if (0 <? length emptyNodes)%nat
        then
          do! performConsolidation (deleteEmptyAction emptyNodes) in
          ret (ProcessResultConsolidated, None)
        else
          let! r := call (NewPDBLimits (kubeClient c)) EvNewPDBLimits in
          match r with
          | inl err =>
              ret (ProcessResultFailed,
                   Some (Errorf "tracking PodDisruptionBudgets, " err))
          | inr pdbs =>
              consolidateFirst pdbs (sortSlice byNodeDisruptionCost candidates)
          end
  end.

(** *** stabilizationWindow *)

Definition hasPendingPods : M bool :=
  let! r := call (fun h => ListPods (kubeClient c) h "") (EvListPods "") in
  match r with
  | inl _ => ret true
  | inr items => ret (existsb IsProvisionable items)
  end.

(** The loop shared by [replicaSetsReady], [replicationControllersReady] and
    [statefulSetsReady]: false at the first item with fewer ready replicas
    than desired. *)
Definition allReady (items : list Workload) : bool :=
  forallb
    (fun rs =>
       let desired :=
         match Replicas rs with
         | None => 1%Z
         | Some _ => Int32Value (Replicas rs)
         end in
       negb (ReadyReplicas rs <? desired)%Z)
    items.

Definition replicaSetsReady : M bool :=
  let! r := call (ListReplicaSets (kubeClient c)) EvListReplicaSets in
  match r with
  | inl _ => ret true
  | inr items => ret (allReady items)
  end.

Definition replicationControllersReady : M bool :=
  let! r := call (ListReplicationControllers (kubeClient c))
                 EvListReplicationControllers in
  match r with
  | inl _ => ret true
  | inr items => ret (allReady items)
  end.

Definition statefulSetsReady : M bool :=
  let! r := call (ListStatefulSets (kubeClient c)) EvListStatefulSets in
  match r with
  | inl _ => ret true
  | inr items => ret (allReady items)
  end.

(** [time.Duration], in nanoseconds. *)
Definition Minute : Z := 60000000000.

(** Go's [&&] evaluates its right operand only when the left one is true. *)
Definition andM (a b : M bool) : M bool :=
  let! x := a in if (x : bool) then b else ret false.

Definition stabilizationWindow : M Z :=
  let! quiet :=
    andM (let! pending := hasPendingPods in ret (negb pending))
      (andM replicaSetsReady (andM replicationControllersReady statefulSetsReady)) in
  if (quiet : bool) then ret 0%Z else ret (5 * Minute)%Z.

End Consolidation.

(** ** One implementation of [sort.Slice]'s contract: insertion sort *)

Fixpoint insertSorted {A} (less : A -> A -> bool) (x : A) (l : list A) : list A :=
  match l with
  | [] => [x]
  | y :: l' => if less y x then y :: insertSorted less x l' else x :: l
  end.

Definition insertionSort {A} (less : A -> A -> bool) (l : list A) : list A :=
  fold_right (insertSorted less) [] l.

(** ** Sample clusters, for the examples *)

Definition samplePod (name : string) : Pod :=
  {| podName := name; IsOwnedByNode := false; IsOwnedByDaemonSet := false;
     IsTerminal := false; IsTerminating := false; HasDoNotEvict := false;
     IsNotOwned := false; IsProvisionable := false; GetPodEvictionCost := 1%Q |}.

Definition daemonSetPod (name : string) : Pod :=
  {| podName := name; IsOwnedByNode := false; IsOwnedByDaemonSet := true;
     IsTerminal := false; IsTerminating := false; HasDoNotEvict := false;
     IsNotOwned := false; IsProvisionable := false; GetPodEvictionCost := 1%Q |}.

Definition standalonePod (name : string) : Pod :=
  {| podName := name; IsOwnedByNode := false; IsOwnedByDaemonSet := false;
     IsTerminal := false; IsTerminating := false; HasDoNotEvict := false;
     IsNotOwned := true; IsProvisionable := false; GetPodEvictionCost := 1%Q |}.

Definition terminatingPod (name : string) : Pod :=
  {| podName := name; IsOwnedByNode := false; IsOwnedByDaemonSet := false;
     IsTerminal := false; IsTerminating := true; HasDoNotEvict := false;
     IsNotOwned := true; IsProvisionable := false; GetPodEvictionCost := 1%Q |}.

Definition sampleNode (name : string) (labels : list (string * string))
    (created : Time) (deleted : option Time) : Node :=
  {| Name := name; Labels := list_to_map labels; Annotations := ∅;
     CreationTimestamp := created; DeletionTimestamp := deleted;
     Unschedulable := false |}.

Definition largeType : InstanceType := {| itName := "large"; Price := 5%Q |}.
Definition mediumType : InstanceType := {| itName := "medium"; Price := 3%Q |}.
Definition smallType : InstanceType := {| itName := "small"; Price := 1%Q |}.

Definition defaultProvisioner : Provisioner :=
  {| provName := "default"; Consolidation := Some (Some true);
     TTLSecondsUntilExpired := None |}.

(** Labels of an initialized node of [defaultProvisioner] with the given
    instance type. *)
Definition managedLabels (it : InstanceType) : list (string * string) :=
  [(ProvisionerNameLabelKey, "default"); (LabelInstanceTypeStable, itName it);
   (LabelNodeInitialized, "true")].

Definition anyCapacity : Requirements := fun _ _ => true.

Definition sampleKube (podsOf : string -> Result (list Pod))
    (getNode : string -> Result Node) (pdb : PDBLimits)
    (replicaSets : Result (list Workload)) : KubeClient :=
  {| ListProvisioners := fun _ => inr [defaultProvisioner];
     ListPods := fun _ name => podsOf name;
     ListReplicaSets := fun _ => replicaSets;
     ListReplicationControllers := fun _ => inr [];
     ListStatefulSets := fun _ => inr [];
     GetNode := fun _ name => getNode name;
     PatchNode := fun _ _ => None;
     DeleteNode := fun _ _ => None;
     NewPDBLimits := fun _ => inr pdb |}.

(** A cluster whose collaborators answer the same at every moment: the fleet
    [nodes], the pods [podsOf] bound to each node, the simulator's answer
    [solve] and the names [launched] of the nodes a launch creates. *)
Definition sampleControllerWith (kube : KubeClient) (nodes : list Node)
    (solve : list Pod -> SchedulerOptions -> Result (list SchedNode * list InFlightNode))
    (launched : Result (list string)) : Controller :=
  {| kubeClient := kube;
     cluster := {| ForEachNode := fun _ => map Build_StateNode nodes;
                   IsNodeNominated := fun _ _ => false |};
     provisioner :=
       {| NewScheduler := fun _ _ _ opts => inr {| Solve := fun ps => solve ps opts |};
          LaunchNodes := fun _ _ _ => launched |};
     clock := {| Now := fun _ => 1000%Q |};
     cloudProvider :=
       {| GetInstanceTypes := fun _ _ => inr [largeType; mediumType; smallType] |} |}.

Definition sampleController (nodes : list Node) (podsOf : string -> Result (list Pod))
    (getNode : string -> Result Node) (pdb : PDBLimits)
    (solve : list Pod -> SchedulerOptions -> Result (list SchedNode * list InFlightNode))
    (launched : Result (list string)) : Controller :=
  sampleControllerWith (sampleKube podsOf getNode pdb (inr [])) nodes solve launched.

Definition allowAll : PDBLimits := {| CanEvictPods := fun _ => true |}.
Definition allowNone : PDBLimits := {| CanEvictPods := fun _ => false |}.

Definition lookupNode (nodes : list Node) (name : string) : Result Node :=
  match List.find (fun n => String.eqb (Name n) name) nodes with
  | Some n => inr n
  | None => inl "not found"
  end.

(** A node of the large type with one pod.  In [byPriceController] the
    simulator asks for one new node and lists its instance types from the
    cheapest to the dearest, the node's own type included. *)
Definition largeNodeCandidate : candidateNode :=
  {| cnNode := sampleNode "old" (managedLabels largeType) 0%Z None;
     instanceType := largeType;
     cnProvisioner := defaultProvisioner;
     cnDisruptionCost := 1%Q;
     pods := [samplePod "web"] |}.



(** The pods of the old node fit on the in-flight node [other]. *)
Definition fitsElsewhereController : Controller :=
  sampleController [cnNode largeNodeCandidate]
    (fun _ => inr [samplePod "web"]) (fun _ => inl "not found") allowAll
    (fun _ _ => inr ([], [ {| inflightName := "other"; Pods := [samplePod "web"] |} ]))
    (inr []).

(** A spot node of the large type; the simulator proposes one node that may
    be spot and may be of the small type. *)
Definition spotCandidate : candidateNode :=
  {| cnNode := sampleNode "old"
                 ((LabelCapacityType, CapacityTypeSpot) :: managedLabels largeType)
                 0%Z None;
     instanceType := largeType;
     cnProvisioner := defaultProvisioner;
     cnDisruptionCost := 1%Q;
     pods := [samplePod "web"] |}.

Definition spotReplacement : SchedNode :=
  {| InstanceTypeOptions := [smallType];
     SchedRequirements := anyCapacity;
     SchedPods := [samplePod "web"] |}.

Definition spotController : Controller :=
  sampleController [cnNode spotCandidate]
    (fun _ => inr [samplePod "web"]) (fun _ => inl "not found") allowAll
    (fun _ _ => inr ([spotReplacement], [])) (inr ["new"]).


(** The old node of the large type is replaced by the node ["new"], which the
    API server returns with the initialized label set to [initialized]. *)
Definition replacedNode : Node := sampleNode "old" (managedLabels largeType) 0%Z None.

Definition replacementK8Node (initialized : string) : Node :=
  sampleNode "new"
    [(ProvisionerNameLabelKey, "default"); (LabelInstanceTypeStable, itName smallType);
     (LabelNodeInitialized, initialized)] 10%Z None.

Definition replacementSchedNode : SchedNode :=
  {| InstanceTypeOptions := [smallType];
     SchedRequirements := anyCapacity;
     SchedPods := [samplePod "web"] |}.

Definition replaceController (initialized : string) : Controller :=
  sampleController [replacedNode]
    (fun _ => inr [samplePod "web"])
    (lookupNode [replacedNode; replacementK8Node initialized]) allowAll
    (fun _ _ => inr ([replacementSchedNode], [])) (inr ["new"]).

Definition replaceAction : consolidationAction :=
  {| oldNodes := [replacedNode];
     actDisruptionCost := 1%Q;
     result := consolidateResultReplace;
     replacementNode := Some replacementSchedNode;
     savings := 4%Q |}.

(** No pod is pending, no ReplicationController and no StatefulSet exists,
    and the list of the ReplicaSets fails. *)
Definition replicaSetListFails : Controller :=
  sampleControllerWith
    (sampleKube (fun _ => inr []) (fun _ => inl "not found") allowAll
       (inl "the server is currently unable to handle the request"))
    [] (fun _ _ => inr ([], [])) (inr []).

(** Fleets for the selector.  [emptyNode] is an initialized node of the
    default provisioner with no pod; [unmanagedNode] carries no label at all
    (a node that no provisioner launched); [uninitializedNode] belongs to the
    default provisioner and has no initialized label yet. *)
Definition emptyNode : Node := sampleNode "empty" (managedLabels largeType) 0%Z None.

Definition unmanagedNode : Node := sampleNode "unmanaged" [] 0%Z None.

Definition uninitializedNode : Node :=
  sampleNode "fresh"
    [(ProvisionerNameLabelKey, "default"); (LabelInstanceTypeStable, itName largeType)]
    5%Z None.

Definition unmanagedFleet : Controller :=
  sampleController [unmanagedNode; emptyNode] (fun _ => inr [])
    (lookupNode [unmanagedNode; emptyNode]) allowAll
    (fun _ _ => inr ([], [])) (inr []).

Definition uninitializedFleet : Controller :=
  sampleController [emptyNode; uninitializedNode] (fun _ => inr [])
    (lookupNode [emptyNode; uninitializedNode]) allowAll
    (fun _ _ => inr ([], [])) (inr []).

Definition defaultProvisionerMap : ProvisionerMap :=
  (<["default" := defaultProvisioner]> ∅,
   <["default" := instanceTypesByName [largeType; mediumType; smallType]]> ∅).

(** An initialized node of the default provisioner that is already being
    deleted and hosts one daemonset pod, in a cluster whose PDBs allow no
    eviction; next to it, a node with one pod of a replica set. *)
Definition deletingNode : Node :=
  sampleNode "deleting" (managedLabels largeType) 0%Z (Some 7%Z).

Definition busyNode : Node := sampleNode "busy" (managedLabels largeType) 0%Z None.

Definition deletingFleet : Controller :=
  sampleController [deletingNode; busyNode]
    (fun name => if String.eqb name "deleting" then inr [daemonSetPod "logs"]
                 else inr [samplePod "web"])
    (lookupNode [deletingNode; busyNode]) allowNone
    (fun _ _ => inr ([], [])) (inr []).

Definition deletingCandidate : candidateNode :=
  {| cnNode := deletingNode; instanceType := largeType;
     cnProvisioner := defaultProvisioner; cnDisruptionCost := 0%Q; pods := [] |}.

(** Two nodes of the large type with one replica-set pod each, whose pods
    fit on the other node; the fleet lists the younger node first. *)
Definition olderNode : Node := sampleNode "older" (managedLabels largeType) 0%Z None.
Definition youngerNode : Node := sampleNode "younger" (managedLabels largeType) 5%Z None.

Definition twoBusyNodes : Controller :=
  sampleController [youngerNode; olderNode] (fun _ => inr [samplePod "web"])
    (lookupNode [youngerNode; olderNode]) allowAll
    (fun ps _ => inr ([], [ {| inflightName := "other"; Pods := ps |} ])) (inr []).

Definition candidatesOf (c : Controller) : list candidateNode :=
  match value (candidateNodes c) [] with
  | inr candidates => candidates
  | inl _ => []
  end.
(** ** Predicates on events and traces, for the statements below *)

(** The events [launchReplacementNode] may emit. *)
Definition launchEvent (e : Event) : bool :=
  match e with
  | EvGetNode _ _ | EvPatchNode _ _ | EvLaunchNodes _ _ _
  | EvLaunchingNodeForConsolidation _ | EvWaitingOnReadinessForConsolidation _ => true
  | EvCounterAdd counter => String.eqb counter counterNodesCreated
  | _ => false
  end.

Definition isDelete (e : Event) : bool :=
  match e with
  | EvDeleteNode _ _ => true
  | _ => false
  end.

(** Events that change the cluster: a patch, a launch, a delete. *)
Definition isMutation (e : Event) : bool :=
  match e with
  | EvPatchNode _ _ | EvLaunchNodes _ _ _ | EvDeleteNode _ _ => true
  | _ => false
  end.

Definition isLaunch (e : Event) : bool :=
  match e with
  | EvLaunchNodes _ _ _ => true
  | _ => false
  end.




(** Every delete in the trace comes after a launch that named one new node
    and, after that launch, a read of that node that returned it carrying the
    initialized label. *)
Definition deleteOnlyAfterInitialized (tr : list Event) : Prop :=
  forall i n r,
    tr !! i = Some (EvDeleteNode n r) ->
    exists k j nodeName opts rn k8Node,
      k < j < i
      /\ tr !! k = Some (EvLaunchNodes opts rn (inr [nodeName]))
      /\ tr !! j = Some (EvGetNode nodeName (inr k8Node))
      /\ is_Some (Labels k8Node !! LabelNodeInitialized).

(** No read of a node in the trace returned a node carrying the initialized
    label. *)
Definition neverObservedInitialized (tr : list Event) : Prop :=
  Forall (fun e => forall nodeName k8Node,
            e = EvGetNode nodeName (inr k8Node) ->
            Labels k8Node !! LabelNodeInitialized = None) tr.

Definition noDelete (tr : list Event) : Prop :=
  Forall (fun e => isDelete e = false) tr.

Definition noMutation (tr : list Event) : Prop :=
  Forall (fun e => isMutation e = false) tr.

(** The events [deleteOldNodes] may emit. *)
Definition deleteEvent (e : Event) : bool :=
  match e with
  | EvTerminatingNodeForConsolidation _ | EvDeleteNode _ _ | EvLogError _ _ => true
  | EvCounterAdd counter => String.eqb counter counterNodesTerminated
  | _ => false
  end.


(** The events the planner may emit. *)
Definition plannerEvent (e : Event) : bool :=
  match e with
  | EvNewScheduler _ _ _ | EvLogError _ _ => true
  | _ => false
  end.

(** The pods the do-not-evict and ownerless checks look at: neither
    terminating, nor terminal, nor owned by the node. *)
Definition checkedPod (p : Pod) : bool :=
  negb (IsTerminating p || IsTerminal p || IsOwnedByNode p).

(** The events the candidate selector may emit: lists and log lines. *)
Definition selectorEvent (e : Event) : bool :=
  match e with
  | EvListProvisioners _ | EvGetInstanceTypes _ _ | EvListPods _ _ | EvLogError _ _ => true
  | _ => false
  end.

Definition isNewPDBLimits (e : Event) : bool :=
  match e with
  | EvNewPDBLimits _ => true
  | _ => false
  end.

(** The node reaches the initialized check of the selector and fails it. *)
Definition uninitializedCandidate (pm : ProvisionerMap) (n : StateNode) : Prop :=
  is_Some (resolveNode pm (stNode n))
  /\ mapGet (Labels (stNode n)) LabelNodeInitialized <> "true".

(** ** The order of examination *)

(** [a] comes no later than [b]: a smaller disruption cost, or the same cost
    and a creation time that is not later. *)
Definition ascending (a b : candidateNode) : Prop :=
  (cnDisruptionCost a < cnDisruptionCost b)%Q
  \/ ((cnDisruptionCost a == cnDisruptionCost b)%Q
      /\ (CreationTimestamp (cnNode a) <= CreationTimestamp (cnNode b))%Z).

(** The contract of [sort.Slice] for a comparison that is a strict weak
    order: the result is a permutation of the slice in which no element is
    less than an earlier one. *)
Definition sortContract
    (sortSlice : (candidateNode -> candidateNode -> bool) ->
                 list candidateNode -> list candidateNode) : Prop :=
  forall l,
    Permutation l (sortSlice byNodeDisruptionCost l)
    /\ StronglySorted (fun a b => byNodeDisruptionCost b a = false)
         (sortSlice byNodeDisruptionCost l).

(** From history [h] on, the loop of ProcessCluster examines the candidates
    in order and passes over each of them, emitting [t]: the gate rejects the
    candidate, which leaves no event, or the action planned for it at that
    moment is neither Delete nor Replace. *)
Inductive PassedOver (c : Controller) (pdbs : PDBLimits)
    : History -> list candidateNode -> list Event -> Prop :=
| PassedOver_nil h : PassedOver c pdbs h [] []
| PassedOver_rejected h node rest t :
    is_Some (canBeTerminated node pdbs) ->
    PassedOver c pdbs h rest t ->
    PassedOver c pdbs h (node :: rest) t
| PassedOver_planned h node rest t :
    canBeTerminated node pdbs = None ->
    isDeleteOrReplace (result (value (nodeConsolidationActions c node) h)) = false ->
    PassedOver c pdbs (h ++ trace (nodeConsolidationActions c node) h) rest t ->
    PassedOver c pdbs h (node :: rest)
      (trace (nodeConsolidationActions c node) h ++ t).

(** What the loop over [candidates] does from history [h] on: either every
    candidate is passed over and the answer is NothingToDo, or the candidates
    before [node] are passed over, [node] passes the gate and is planned a
    Delete or a Replace, that action is performed, and the loop ends with
    Consolidated without looking at the candidates after [node]. *)
Definition FirstConsolidated (c : Controller) (pdbs : PDBLimits) (h : History)
    (candidates : list candidateNode)
    (res : ProcessResult * option error) (tr : list Event) : Prop :=
  (res = (ProcessResultNothingToDo, None) /\ PassedOver c pdbs h candidates tr)
  \/ (exists before node after t,
        candidates = before ++ node :: after
        /\ PassedOver c pdbs h before t
        /\ canBeTerminated node pdbs = None
        /\ isDeleteOrReplace
             (result (value (nodeConsolidationActions c node) (h ++ t))) = true
        /\ tr = t ++ trace (nodeConsolidationActions c node) (h ++ t)
                  ++ trace (performConsolidation c
                              (value (nodeConsolidationActions c node) (h ++ t)))
                       (h ++ t ++ trace (nodeConsolidationActions c node) (h ++ t))
        /\ res = (ProcessResultConsolidated, None)).

Definition isActionPerformed (e : Event) : bool :=
  match e with
  | EvCounterAdd counter => String.eqb counter counterActionsPerformed
  | _ => false
  end.

(** How many consolidation actions the trace performs. *)
Definition actionsPerformed (tr : list Event) : nat :=
  length (List.filter isActionPerformed tr).
(** ** Running computations: the equations of the monad *)

Lemma bind_run {A B} (m : M A) (f : A -> M B) (h : History) :
  bind m f h =
    (value (f (value m h)) (h ++ trace m h),
     trace m h ++ trace (f (value m h)) (h ++ trace m h)).
Proof.
  unfold bind, value, trace.
  destruct (m h) as [a t1]; simpl.
  destruct (f a (h ++ t1)); reflexivity.
Qed.

Lemma value_bind {A B} (m : M A) (f : A -> M B) h :
  value (bind m f) h = value (f (value m h)) (h ++ trace m h).
Proof. unfold value at 1. rewrite bind_run. reflexivity. Qed.

Lemma trace_bind {A B} (m : M A) (f : A -> M B) h :
  trace (bind m f) h = trace m h ++ trace (f (value m h)) (h ++ trace m h).
Proof. unfold trace at 1. rewrite bind_run. reflexivity. Qed.

Lemma value_ret {A} (a : A) h : value (ret a) h = a.
Proof. reflexivity. Qed.

Lemma trace_ret {A} (a : A) h : trace (ret a) h = [].
Proof. reflexivity. Qed.

Lemma value_call {A} (ask : History -> A) ev h : value (call ask ev) h = ask h.
Proof. reflexivity. Qed.

Lemma trace_call {A} (ask : History -> A) ev h : trace (call ask ev) h = [ev (ask h)].
Proof. reflexivity. Qed.

Lemma value_peek {A} (ask : History -> A) h : value (peek ask) h = ask h.
Proof. reflexivity. Qed.

Lemma trace_peek {A} (ask : History -> A) h : trace (peek ask) h = [].
Proof. reflexivity. Qed.

Lemma trace_emit e h : trace (emit e) h = [e].
Proof. reflexivity. Qed.

Lemma value_emit e h : value (emit e) h = tt.
Proof. reflexivity. Qed.

Create Rewrite HintDb monad.
#[local] Hint Rewrite @value_bind @trace_bind @value_ret @trace_ret @value_call
  @trace_call @value_peek @trace_peek trace_emit value_emit : monad.
#[local] Hint Rewrite app_nil_r : monad.
#[local] Hint Rewrite <- app_assoc : monad.

Ltac msimpl := autorewrite with monad.
Ltac msimpl_in H := autorewrite with monad in H.

(** Membership of an event in a trace that computes. *)
Ltac in_trace := vm_compute; repeat first [ left; reflexivity | right ].

(** ** The action planner: nodeConsolidationOptionReplaceOrDelete *)

Lemma Qltb_lt (x y : Q) : Qltb x y = true <-> (x < y)%Q.
Proof.
  unfold Qltb. rewrite negb_true_iff.
  split; intro H.
  - apply Qnot_le_lt. intro Hle. apply Qle_bool_iff in Hle. congruence.
  - destruct (Qle_bool y x) eqn:E; [|reflexivity].
    apply Qle_bool_iff in E. exfalso. exact (Qlt_not_le _ _ H E).
Qed.

Lemma filterByPrice_strict (options : list InstanceType) (price : Q) :
  Forall (fun o => (Price o < price)%Q) (filterByPrice options price false).
Proof.
  unfold filterByPrice. apply List.Forall_forall. intros o Ho.
  apply List.filter_In in Ho as [_ Ho].
  rewrite andb_false_l, orb_false_r in Ho. now apply Qltb_lt.
Qed.

(** Once the scheduler is built and [Solve] has answered, the planner's
    action is [replaceOrDelete] of the answer, with no error. *)
Lemma planner_solved (c : Controller) (node : candidateNode) (h : History)
    (scheduler : Scheduler) (newNodes : list SchedNode) (inflightNodes : list InFlightNode) :
  NewScheduler (provisioner c) h (pods node) (ForEachNode (cluster c) h)
    {| SimulationMode := true; ExcludeNodes := [Name (cnNode node)] |} = inr scheduler ->
  Solve scheduler (pods node) = inr (newNodes, inflightNodes) ->
  value (nodeConsolidationOptionReplaceOrDelete c node) h =
    (replaceOrDelete node newNodes inflightNodes, None).
Proof.
  intros Hs Hsolve. unfold nodeConsolidationOptionReplaceOrDelete.
  msimpl. rewrite Hs, Hsolve. reflexivity.
Qed.


(** The answers of the simulator do not enter the history: an action of the
    planner is [replaceOrDelete] of some answer, or Unknown. *)
Lemma planner_cases (c : Controller) (node : candidateNode) (h : History) :
  (exists err, value (nodeConsolidationOptionReplaceOrDelete c node) h =
                 (actionOf consolidateResultUnknown, Some err))
  \/ (exists newNodes inflightNodes,
        value (nodeConsolidationOptionReplaceOrDelete c node) h =
          (replaceOrDelete node newNodes inflightNodes, None)).
Proof.
  unfold nodeConsolidationOptionReplaceOrDelete. msimpl.
  destruct (NewScheduler _ _ _ _ _) as [err|scheduler]; msimpl; [left; eauto|].
  destruct (Solve scheduler (pods node)) as [err|[newNodes inflightNodes]];
    msimpl; [left; eauto | right; eauto].
Qed.







(** C4: when the simulation needs no new node and puts as many pods on the
    in-flight nodes as the candidate has, the planner answers Delete with
    savings equal to the old node's price; in every other case where the
    number of new nodes is not exactly one (none, but pods left over; or more
    than one) it answers NotPossible. *)
Theorem delete_or_not_possible (c : Controller) (node : candidateNode) (h : History)
    (scheduler : Scheduler) (newNodes : list SchedNode)
    (inflightNodes : list InFlightNode) :
  NewScheduler (provisioner c) h (pods node) (ForEachNode (cluster c) h)
    {| SimulationMode := true; ExcludeNodes := [Name (cnNode node)] |} = inr scheduler ->
  Solve scheduler (pods node) = inr (newNodes, inflightNodes) ->
  let a := (value (nodeConsolidationOptionReplaceOrDelete c node) h).1 in
  (length newNodes = 0 ->
   schedulableCount inflightNodes = length (pods node) ->
   result a = consolidateResultDelete
   /\ savings a = Price (instanceType node)
   /\ oldNodes a = [cnNode node])
  /\ (length newNodes = 0 ->
      schedulableCount inflightNodes <> length (pods node) ->
      result a = consolidateResultNotPossible)
  /\ (1 < length newNodes -> result a = consolidateResultNotPossible).
Proof.
  intros Hs Hsolve a. subst a.
  rewrite (planner_solved _ _ _ _ _ _ Hs Hsolve). simpl.
  unfold replaceOrDelete. split; [|split].
  - intros H0 Hc. rewrite H0, Hc, !Nat.eqb_refl. simpl. auto.
  - intros H0 Hc. destruct newNodes; [|discriminate]. simpl.
    apply Nat.eqb_neq in Hc. rewrite Nat.eqb_sym in Hc. rewrite Hc. reflexivity.
  - intros Hlen. destruct newNodes as [|n1 [|n2 rest]]; simpl in Hlen; try lia.
    reflexivity.
Qed.

Lemma delete_or_not_possible_witness :
  let a := (value (nodeConsolidationOptionReplaceOrDelete fitsElsewhereController
                     largeNodeCandidate) []).1 in
  result a = consolidateResultDelete
  /\ savings a = Price largeType
  /\ oldNodes a = [cnNode largeNodeCandidate].
Proof.
  exact (proj1 (delete_or_not_possible fitsElsewhereController largeNodeCandidate []
                  _ _ _ eq_refl eq_refl) eq_refl eq_refl).
Defined.

(** C5: a candidate labelled with the spot capacity type, whose simulated
    replacement also allows spot, gets NotPossible, whatever the prices. *)
Theorem spot_to_spot_not_possible (c : Controller) (node : candidateNode) (h : History)
    (scheduler : Scheduler) (newNode : SchedNode) (others : list SchedNode)
    (inflightNodes : list InFlightNode) :
  NewScheduler (provisioner c) h (pods node) (ForEachNode (cluster c) h)
    {| SimulationMode := true; ExcludeNodes := [Name (cnNode node)] |} = inr scheduler ->
  Solve scheduler (pods node) = inr (newNode :: others, inflightNodes) ->
  mapGet (Labels (cnNode node)) LabelCapacityType = CapacityTypeSpot ->
  Has (Get (SchedRequirements newNode) LabelCapacityType) CapacityTypeSpot = true ->
  result (value (nodeConsolidationOptionReplaceOrDelete c node) h).1
  = consolidateResultNotPossible.
Proof.
  intros Hs Hsolve Hspot Hnew.
  rewrite (planner_solved _ _ _ _ _ _ Hs Hsolve). simpl.
  unfold replaceOrDelete. simpl.
  destruct others; [|reflexivity].
  destruct (filterByPrice _ _ _); [reflexivity|].
  rewrite Hspot, Hnew, String.eqb_refl. reflexivity.
Qed.

Lemma spot_to_spot_not_possible_witness :
  filterByPrice (InstanceTypeOptions spotReplacement) (Price (instanceType spotCandidate))
    false = [smallType]
  /\ result (value (nodeConsolidationOptionReplaceOrDelete spotController spotCandidate) []).1
     = consolidateResultNotPossible.
Proof.
  split; [reflexivity|].
  exact (spot_to_spot_not_possible spotController spotCandidate [] _ spotReplacement []
           [] eq_refl eq_refl eq_refl eq_refl).
Defined.

(** ** The action executor: performConsolidation and launchReplacementNode *)

Lemma Forall_app_intro {A} (P : A -> Prop) (l1 l2 : list A) :
  Forall P l1 -> Forall P l2 -> Forall P (l1 ++ l2).
Proof. intros. apply List.Forall_app. auto. Qed.

Ltac events :=
  repeat first
    [ apply List.Forall_nil
    | apply List.Forall_cons; [reflexivity|]
    | apply Forall_app_intro ].

Lemma setNodeUnschedulable_emits (c : Controller) (name : string) (b : bool) (h : History) :
  Forall (fun e => launchEvent e = true) (trace (setNodeUnschedulable c name b) h).
Proof.
  unfold setNodeUnschedulable. msimpl.
  destruct (GetNode _ _ _) as [err|node]; msimpl; events.
  destruct (negb b && _); msimpl; events.
  destruct (Bool.eqb _ _); msimpl; events.
  destruct (PatchNode _ _ _); msimpl; events.
Qed.

Lemma readinessAttempt_emits (c : Controller) (name : string) (once : bool) (h : History) :
  Forall (fun e => launchEvent e = true) (trace (readinessAttempt c name once) h).
Proof.
  unfold readinessAttempt. msimpl.
  destruct (GetNode _ _ _) as [err|node]; msimpl; events;
    destruct once; msimpl; events;
    destruct (negb (mapHas _ _)); msimpl; events.
Qed.

Lemma retryLoop_emits (c : Controller) (name : string) (n : nat) :
  forall once lastErr h,
    Forall (fun e => launchEvent e = true)
      (trace (retryLoop n (readinessAttempt c name) once lastErr) h).
Proof.
  induction n as [|n IH]; intros once lastErr h; simpl; msimpl; events.
  - apply readinessAttempt_emits.
  - destruct (value (readinessAttempt c name once) h) as [[err|] once']; msimpl; events.
    apply IH.
Qed.

(** When the wait returns nil, some poll has returned the node carrying the
    initialized label. *)
Lemma retryLoop_success (c : Controller) (name : string) (n : nat) :
  forall once lastErr h,
    value (retryLoop n (readinessAttempt c name) once lastErr) h = None ->
    (n = 0 /\ lastErr = None)
    \/ exists i k8Node,
         trace (retryLoop n (readinessAttempt c name) once lastErr) h !! i
         = Some (EvGetNode name (inr k8Node))
         /\ is_Some (Labels k8Node !! LabelNodeInitialized).
Proof.
  induction n as [|n IH]; intros once lastErr h; simpl; msimpl.
  - intros ->. left. auto.
  - intros Hv. right.
    destruct (value (readinessAttempt c name once) h) as [[err|] once'] eqn:Ha.
    + msimpl_in Hv. msimpl.
      destruct (IH _ _ _ Hv) as [[_ ?]|(i & k8Node & Hi & Hl)]; [discriminate|].
      exists (length (trace (readinessAttempt c name once) h) + i), k8Node.
      split; [|exact Hl].
      rewrite lookup_app_r by lia.
      replace (_ + i - _) with i by lia. exact Hi.
    + clear Hv. unfold readinessAttempt in Ha |- *. msimpl_in Ha. msimpl.
      destruct (GetNode (kubeClient c) h name) as [err|k8Node] eqn:Hg;
        msimpl_in Ha; [discriminate|].
      exists 0, k8Node. split; [reflexivity|].
      destruct (mapHas (Labels k8Node) LabelNodeInitialized) eqn:Hm.
      * unfold mapHas in Hm. now apply bool_decide_eq_true in Hm.
      * simpl in Ha. revert Ha. destruct once; msimpl; discriminate.
Qed.

Lemma setNodeUnschedulable_no_launch (c : Controller) (name : string) (b : bool) h :
  Forall (fun e => isLaunch e = false) (trace (setNodeUnschedulable c name b) h).
Proof.
  unfold setNodeUnschedulable. msimpl.
  destruct (GetNode _ _ _) as [err|node]; msimpl; events.
  destruct (negb b && _); msimpl; events.
  destruct (Bool.eqb _ _); msimpl; events.
  destruct (PatchNode _ _ _); msimpl; events.
Qed.

Lemma retryLoop_no_launch (c : Controller) (name : string) (n : nat) :
  forall once lastErr h,
    Forall (fun e => isLaunch e = false)
      (trace (retryLoop n (readinessAttempt c name) once lastErr) h).
Proof.
  induction n as [|n IH]; intros once lastErr h; simpl; msimpl; events.
  - unfold readinessAttempt. msimpl.
    destruct (GetNode _ _ _) as [err|node]; msimpl; events;
      destruct once; msimpl; events;
      destruct (negb (mapHas _ _)); msimpl; events.
  - destruct (value (readinessAttempt c name once) h) as [[err|] once']; msimpl; events.
    apply IH.
Qed.

Lemma launchReplacementNode_emits (c : Controller) (a : consolidationAction) h :
  Forall (fun e => launchEvent e = true) (trace (launchReplacementNode c a) h).
Proof.
  unfold launchReplacementNode.
  destruct (oldNodes a) as [|old [|? ?]]; msimpl; events.
  - apply setNodeUnschedulable_emits.
  - destruct (value (setNodeUnschedulable c (Name old) true) h); msimpl; events.
    destruct (LaunchNodes _ _ _ _) as [err|[|nodeName [|? ?]]]; msimpl; events.
    + apply retryLoop_emits.
    + destruct (value (retryDo _ _ _) _); msimpl; events.
      apply setNodeUnschedulable_emits.
Qed.

(** A launch that the provisioner answers with an error makes
    [launchReplacementNode] fail. *)
Lemma launchReplacementNode_launch_error (c : Controller) (a : consolidationAction) h
    i opts rn err :
  trace (launchReplacementNode c a) h !! i = Some (EvLaunchNodes opts rn (inl err)) ->
  is_Some (value (launchReplacementNode c a) h).
Proof.
  unfold launchReplacementNode.
  destruct (oldNodes a) as [|old [|? ?]]; msimpl; try (intros; eexists; reflexivity).
  pose proof (setNodeUnschedulable_no_launch c (Name old) true h) as Hcordon.
  destruct (value (setNodeUnschedulable c (Name old) true) h); msimpl;
    [intros; eexists; reflexivity|].
  destruct (LaunchNodes _ _ _ _) as [err'|[|nodeName [|? ?]]] eqn:Hl; msimpl;
    try (intros; eexists; reflexivity).
  match goal with |- context [value (retryDo _ _ _) ?x] => set (hw := x) end.
  pose proof (retryLoop_no_launch c nodeName readinessAttempts false None hw) as Hwait.
  fold (retryDo readinessAttempts (readinessAttempt c nodeName) false) in Hwait.
  destruct (value (retryDo readinessAttempts (readinessAttempt c nodeName) false) hw)
    eqn:Hv; msimpl; [intros; eexists; reflexivity|].
  intros Hi. exfalso.
  assert (Forall (fun e => e <> EvLaunchNodes opts rn (inl err))
            (trace (setNodeUnschedulable c (Name old) true) h ++
             [EvLaunchNodes {| RecordPodNomination := false |} (replacementNode a)
                (inr [nodeName]);
              EvCounterAdd counterNodesCreated] ++
             trace (retryDo readinessAttempts (readinessAttempt c nodeName) false) hw))
    as Hall.
  { apply Forall_app_intro; [|apply Forall_app_intro].
    - eapply List.Forall_impl; [|exact Hcordon]. intros e He ->. discriminate.
    - repeat constructor; discriminate.
    - eapply List.Forall_impl; [|exact Hwait]. intros e He ->. discriminate. }
  exact (Forall_lookup_1 _ _ _ _ Hall Hi eq_refl).
Qed.

(** When [launchReplacementNode] returns nil, its trace holds the launch that
    named the replacement and, later, a poll that returned that node carrying
    the initialized label. *)
Lemma launchReplacementNode_success (c : Controller) (a : consolidationAction) h :
  value (launchReplacementNode c a) h = None ->
  exists k j nodeName opts rn k8Node,
    k < j < length (trace (launchReplacementNode c a) h)
    /\ trace (launchReplacementNode c a) h !! k
       = Some (EvLaunchNodes opts rn (inr [nodeName]))
    /\ trace (launchReplacementNode c a) h !! j = Some (EvGetNode nodeName (inr k8Node))
    /\ is_Some (Labels k8Node !! LabelNodeInitialized).
Proof.
  unfold launchReplacementNode.
  destruct (oldNodes a) as [|old [|? ?]]; msimpl; try discriminate.
  destruct (value (setNodeUnschedulable c (Name old) true) h); msimpl; [discriminate|].
  destruct (LaunchNodes _ _ _ _) as [err'|[|nodeName [|? ?]]] eqn:Hl; msimpl;
    try discriminate.
  match goal with |- context [value (retryDo _ _ _) ?x] => set (hw := x) end.
  destruct (value (retryDo readinessAttempts (readinessAttempt c nodeName) false) hw)
    eqn:Hv; msimpl; [discriminate|].
  intros _. unfold retryDo in Hv |- *.
  destruct (retryLoop_success _ _ _ _ _ _ Hv) as [[? _]|(i & k8Node & Hi & Hlab)];
    [discriminate|].
  set (tc := trace (setNodeUnschedulable c (Name old) true) h) in *.
  exists (length tc), (length tc + 2 + i), nodeName,
    {| RecordPodNomination := false |}, (replacementNode a), k8Node.
  apply lookup_lt_Some in Hi as Hlt.
  set (tw := trace (retryLoop _ _ _ _) hw) in *.
  repeat split.
  - lia.
  - rewrite !length_app. cbn [length]. lia.
  - apply list_lookup_middle. reflexivity.
  - rewrite lookup_app_r by lia.
    replace (length tc + 2 + i - length tc) with (2 + i) by lia. exact Hi.
  - exact Hlab.
Qed.

Lemma deleteOldNodes_emits (c : Controller) (ns : list Node) :
  forall h, Forall (fun e => deleteEvent e = true) (trace (deleteOldNodes c ns) h).
Proof.
  unfold deleteOldNodes.
  induction ns as [|n ns IH]; intros h; simpl; msimpl; events.
  - unfold deleteOldNode. msimpl.
    destruct (DeleteNode _ _ _); msimpl; events.
  - destruct (value (deleteOldNode c n) h). apply IH.
Qed.

(** [deleteOldNodes] issues a delete for each of the nodes, and for no other. *)
Lemma deleteOldNodes_issues (c : Controller) (ns : list Node) (n : Node) :
  forall h, In n ns -> exists r, In (EvDeleteNode n r) (trace (deleteOldNodes c ns) h).
Proof.
  unfold deleteOldNodes.
  induction ns as [|n' ns IH]; intros h Hin; [destruct Hin|].
  simpl. msimpl. destruct (value (deleteOldNode c n') h).
  destruct Hin as [->|Hin].
  - unfold deleteOldNode at 1. msimpl.
    eexists. simpl. right. left. reflexivity.
  - destruct (IH (h ++ trace (deleteOldNode c n') h) Hin) as [r Hr].
    exists r. apply in_or_app. right. exact Hr.
Qed.

Lemma deleteOldNodes_only (c : Controller) (ns : list Node) (n : Node) (r : option error) :
  forall h, In (EvDeleteNode n r) (trace (deleteOldNodes c ns) h) -> In n ns.
Proof.
  unfold deleteOldNodes.
  induction ns as [|n' ns IH]; intros h Hin; [destruct Hin|].
  simpl in Hin. rewrite trace_bind in Hin. destruct (value (deleteOldNode c n') h).
  apply in_app_or in Hin as [Hin|Hin].
  - left. unfold deleteOldNode in Hin. msimpl_in Hin. simpl in Hin.
    destruct Hin as [Hin|[Hin|Hin]]; try discriminate.
    + congruence.
    + destruct (DeleteNode _ _ _); msimpl_in Hin;
        destruct Hin as [Hin|[]]; discriminate.
  - right. exact (IH _ Hin).
Qed.

(** The trace of a Replace: the counter and the log line, the launch, and
    then the deletes when the launch returned nil, one log line otherwise. *)
Lemma performConsolidation_Replace (c : Controller) (a : consolidationAction) h :
  result a = consolidateResultReplace ->
  let h0 := h ++ [EvCounterAdd counterActionsPerformed; EvLogInfo "Consolidating via "] in
  trace (performConsolidation c a) h =
    [EvCounterAdd counterActionsPerformed; EvLogInfo "Consolidating via "]
    ++ trace (launchReplacementNode c a) h0
    ++ match value (launchReplacementNode c a) h0 with
       | Some err => [EvLogError "Launching replacement node, " err]
       | None =>
           trace (deleteOldNodes c (oldNodes a))
             (h0 ++ trace (launchReplacementNode c a) h0)
       end.
Proof.
  intros Hr h0. unfold performConsolidation. rewrite Hr. msimpl.
  change (h ++ [EvCounterAdd counterActionsPerformed] ++ [EvLogInfo "Consolidating via "])
    with h0.
  destruct (value (launchReplacementNode c a) h0); msimpl;
    subst h0; simpl; rewrite <- ?app_assoc; reflexivity.
Qed.

Lemma launchEvent_not_delete (tr : list Event) :
  Forall (fun e => launchEvent e = true) tr -> noDelete tr.
Proof.
  apply List.Forall_impl. intros e He. destruct e; try reflexivity; discriminate.
Qed.

(** C1: in a Replace, a delete of the old node is issued only after the
    replacement has been launched and then read carrying the initialized
    label; when [launchReplacementNode] fails, in particular when the
    provisioner's launch fails or no poll of the wait ever sees the label, no
    delete is issued at all. *)
Theorem delete_only_after_replacement_initialized (c : Controller)
    (a : consolidationAction) (h : History) :
  result a = consolidateResultReplace ->
  let tr := trace (performConsolidation c a) h in
  let h0 := h ++ [EvCounterAdd counterActionsPerformed; EvLogInfo "Consolidating via "] in
  deleteOnlyAfterInitialized tr
  /\ (is_Some (value (launchReplacementNode c a) h0) -> noDelete tr)
  /\ (forall i opts rn err,
        tr !! i = Some (EvLaunchNodes opts rn (inl err)) -> noDelete tr)
  /\ (neverObservedInitialized tr -> noDelete tr).
Proof.
  intros Hr tr h0.
  pose proof (performConsolidation_Replace c a h Hr) as Htr. cbv zeta in Htr.
  fold h0 in Htr. fold tr in Htr.
  pose proof (launchEvent_not_delete _ (launchReplacementNode_emits c a h0)) as Hemits.
  set (tl := trace (launchReplacementNode c a) h0) in *.
  assert (Hfail : is_Some (value (launchReplacementNode c a) h0) -> noDelete tr).
  { intros [err Herr]. rewrite Htr, Herr. unfold noDelete.
    events. exact Hemits. }
  assert (Hafter : deleteOnlyAfterInitialized tr).
  { intros i n r Hi.
    destruct (value (launchReplacementNode c a) h0) as [err|] eqn:Hv.
    - exfalso. assert (Hnd : noDelete tr) by (apply Hfail; eauto).
      exact (diff_false_true (eq_sym (Forall_lookup_1 _ _ _ _ Hnd Hi))).
    - destruct (launchReplacementNode_success c a h0 Hv)
        as (k & j & nodeName & opts & rn & k8Node & Hkj & Hk & Hj & Hlab).
      fold tl in Hkj, Hk, Hj.
      exists (2 + k), (2 + j), nodeName, opts, rn, k8Node.
      assert (Hi2 : 2 + length tl <= i).
      { destruct (decide (i < 2 + length tl)) as [Hlt|]; [|lia]. exfalso.
        rewrite Htr, app_assoc, lookup_app_l in Hi
          by (rewrite length_app; simpl; lia).
        assert (Hnd : noDelete ([EvCounterAdd counterActionsPerformed;
                                 EvLogInfo "Consolidating via "] ++ tl)).
        { unfold noDelete. events. exact Hemits. }
        exact (diff_false_true (eq_sym (Forall_lookup_1 _ _ _ _ Hnd Hi))). }
      repeat split; try lia; try exact Hlab.
      + rewrite Htr. simpl. rewrite lookup_app_l by lia. exact Hk.
      + rewrite Htr. simpl. rewrite lookup_app_l by lia. exact Hj. }
  repeat split.
  - exact Hafter.
  - exact Hfail.
  - intros i opts rn err Hi. apply Hfail.
    rewrite Htr in Hi.
    destruct (decide (i < 2)) as [Hlt|Hge].
    { destruct i as [|[|i]]; simpl in Hi; try discriminate; lia. }
    rewrite lookup_app_r in Hi by (simpl; lia). simpl in Hi.
    destruct (decide (i - 2 < length tl)) as [Hlt|Hge2].
    + rewrite lookup_app_l in Hi by lia.
      exact (launchReplacementNode_launch_error c a h0 _ _ _ _ Hi).
    + rewrite lookup_app_r in Hi by lia.
      destruct (value (launchReplacementNode c a) h0) as [e|] eqn:Hv; [eauto|].
      exfalso.
      pose proof (deleteOldNodes_emits c (oldNodes a) (h0 ++ tl)) as Hd.
      pose proof (Forall_lookup_1 _ _ _ _ Hd Hi) as Hbad. discriminate.
  - intros Hnever.
    apply List.Forall_forall. intros e He.
    destruct e; try reflexivity. exfalso.
    apply list_elem_of_In, list_elem_of_lookup in He as [i Hi].
    destruct (Hafter _ _ _ Hi) as (k & j & nodeName & opts & rn & k8Node & _ & _ & Hj & Hlab).
    pose proof (Forall_lookup_1 _ _ _ _ Hnever Hj nodeName k8Node eq_refl) as Hnone.
    rewrite Hnone in Hlab. destruct Hlab. discriminate.
Qed.

Lemma delete_only_after_replacement_initialized_witness :
  let tr := trace (performConsolidation (replaceController "true") replaceAction) [] in
  In (EvDeleteNode replacedNode None) tr /\ deleteOnlyAfterInitialized tr.
Proof.
  split.
  - in_trace.
  - exact (proj1 (delete_only_after_replacement_initialized (replaceController "true")
                    replaceAction [] eq_refl)).
Defined.

(** ** The readiness wait looks at the key only *)

Lemma mapHas_Some (m : gmap string string) (k v : string) :
  m !! k = Some v -> mapHas m k = true.
Proof. intros H. unfold mapHas. apply bool_decide_eq_true. rewrite H. eauto. Qed.

Lemma readinessAttempt_label_present (c : Controller) (nodeName : string) (once : bool)
    (h : History) (k8Node : Node) (v : string) :
  GetNode (kubeClient c) h nodeName = inr k8Node ->
  Labels k8Node !! LabelNodeInitialized = Some v ->
  value (readinessAttempt c nodeName once) h = (None, true)
  /\ trace (readinessAttempt c nodeName once) h =
       EvGetNode nodeName (inr k8Node)
       :: (if once then [] else [EvLaunchingNodeForConsolidation k8Node]).
Proof.
  intros Hg Hl. unfold readinessAttempt. msimpl. rewrite Hg. msimpl.
  rewrite (mapHas_Some _ _ _ Hl). simpl. destruct once; msimpl; auto.
Qed.

Lemma retryLoop_first_success {S} (n : nat) (f : S -> M (option error * S)) (s s' : S)
    (lastErr : option error) (h : History) :
  value (f s) h = (None, s') ->
  value (retryLoop (Datatypes.S n) f s lastErr) h = None
  /\ trace (retryLoop (Datatypes.S n) f s lastErr) h = trace (f s) h.
Proof.
  intros Hv. simpl. msimpl. rewrite Hv. msimpl. auto.
Qed.

(** C10: the wait of [launchReplacementNode] returns nil at the first poll
    that finds the initialized label KEY on the replacement, whatever its
    value; a replacement whose label is, say, "false" therefore lets the
    delete of the old node go ahead. *)
Theorem readiness_wait_accepts_any_value (c : Controller) (nodeName : string)
    (k8Node : Node) (v : string) :
  Labels k8Node !! LabelNodeInitialized = Some v ->
  (forall n once lastErr h,
     GetNode (kubeClient c) h nodeName = inr k8Node ->
     value (retryLoop (S n) (readinessAttempt c nodeName) once lastErr) h = None)
  /\ (forall h a old,
        result a = consolidateResultReplace ->
        oldNodes a = [old] ->
        let h0 := h ++ [EvCounterAdd counterActionsPerformed;
                        EvLogInfo "Consolidating via "] in
        let cordon := setNodeUnschedulable c (Name old) true in
        value cordon h0 = None ->
        LaunchNodes (provisioner c) (h0 ++ trace cordon h0)
          {| RecordPodNomination := false |} (replacementNode a) = inr [nodeName] ->
        GetNode (kubeClient c)
          (h0 ++ trace cordon h0
              ++ [EvLaunchNodes {| RecordPodNomination := false |} (replacementNode a)
                    (inr [nodeName]);
                  EvCounterAdd counterNodesCreated]) nodeName = inr k8Node ->
        value (launchReplacementNode c a) h0 = None
        /\ trace (launchReplacementNode c a) h0 =
             trace cordon h0
             ++ [EvLaunchNodes {| RecordPodNomination := false |} (replacementNode a)
                   (inr [nodeName]);
                 EvCounterAdd counterNodesCreated;
                 EvGetNode nodeName (inr k8Node);
                 EvLaunchingNodeForConsolidation k8Node]
        /\ exists r, In (EvDeleteNode old r) (trace (performConsolidation c a) h)).
Proof.
  intros Hl. split.
  - intros n once lastErr h Hg.
    destruct (readinessAttempt_label_present c nodeName once h k8Node v Hg Hl) as [Hv _].
    exact (proj1 (retryLoop_first_success n _ _ _ lastErr h Hv)).
  - intros h a old Hr Hold h0 cordon Hcordon Hlaunch Hget.
    assert (Hlaunched :
      value (launchReplacementNode c a) h0 = None
      /\ trace (launchReplacementNode c a) h0 =
           trace cordon h0
           ++ [EvLaunchNodes {| RecordPodNomination := false |} (replacementNode a)
                 (inr [nodeName]);
               EvCounterAdd counterNodesCreated;
               EvGetNode nodeName (inr k8Node);
               EvLaunchingNodeForConsolidation k8Node]).
    { unfold launchReplacementNode. rewrite Hold. msimpl. fold cordon.
      rewrite Hcordon. msimpl. rewrite Hlaunch. msimpl.
      unfold retryDo, readinessAttempts.
      match goal with
      | |- context [value (retryLoop 30 _ _ _) ?x] =>
          assert (Hx : x = h0 ++ trace cordon h0
                            ++ [EvLaunchNodes {| RecordPodNomination := false |}
                                  (replacementNode a) (inr [nodeName]);
                                EvCounterAdd counterNodesCreated])
            by reflexivity;
          rewrite !Hx
      end.
      destruct (readinessAttempt_label_present c nodeName false _ k8Node v Hget Hl)
        as [Hv Ht].
      destruct (retryLoop_first_success 29 _ _ _ None _ Hv) as [Hv' Ht'].
      rewrite Hv', Ht', Ht. msimpl. auto. }
    destruct Hlaunched as [Hv Ht]. repeat split; auto.
    pose proof (performConsolidation_Replace c a h Hr) as Htr. cbv zeta in Htr.
    fold h0 in Htr. rewrite Hv, Hold in Htr.
    destruct (deleteOldNodes_issues c [old] old
                (h0 ++ trace (launchReplacementNode c a) h0)) as [r Hin];
      [left; reflexivity|].
    exists r. rewrite Htr. apply in_or_app. right. apply in_or_app. right. exact Hin.
Qed.

Lemma readiness_wait_accepts_any_value_witness :
  mapGet (Labels (replacementK8Node "false")) LabelNodeInitialized <> "true"
  /\ exists r,
       In (EvDeleteNode replacedNode r)
          (trace (performConsolidation (replaceController "false") replaceAction) []).
Proof.
  split; [vm_compute; discriminate|].
  destruct (proj2 (readiness_wait_accepts_any_value (replaceController "false") "new"
                     (replacementK8Node "false") "false" eq_refl)
              [] replaceAction replacedNode eq_refl eq_refl eq_refl eq_refl eq_refl)
    as (_ & _ & Hdel).
  exact Hdel.
Defined.

(** ** The stabilization window *)

Lemma stabilizationWindow_values (c : Controller) (h : History) :
  value (stabilizationWindow c) h = 0%Z
  \/ value (stabilizationWindow c) h = (5 * Minute)%Z.
Proof.
  unfold stabilizationWindow. msimpl.
  destruct (value (andM _ _) h); msimpl; auto.
Qed.

Lemma allReady_iff (items : list Workload) :
  allReady items = true <->
  Forall (fun rs => (default 1 (Replicas rs) <= ReadyReplicas rs)%Z) items.
Proof.
  unfold allReady. rewrite forallb_forall, List.Forall_forall.
  split; intros H rs Hin; specialize (H rs Hin);
    destruct (Replicas rs); simpl in *;
    rewrite ?negb_true_iff, ?Z.ltb_ge in *; assumption.
Qed.

(** When the four lists succeed, the window is 0 exactly when no pending pod
    is provisionable and every workload has its desired replicas ready. *)
Lemma stabilizationWindow_lists_succeed (c : Controller) (h : History)
    (pending : list Pod) (rs rc ss : list Workload) :
  (forall h', ListPods (kubeClient c) h' "" = inr pending) ->
  (forall h', ListReplicaSets (kubeClient c) h' = inr rs) ->
  (forall h', ListReplicationControllers (kubeClient c) h' = inr rc) ->
  (forall h', ListStatefulSets (kubeClient c) h' = inr ss) ->
  value (stabilizationWindow c) h =
    if negb (existsb IsProvisionable pending)
       && (allReady rs && (allReady rc && allReady ss))
    then 0%Z else (5 * Minute)%Z.
Proof.
  intros Hp Hrs Hrc Hss.
  unfold stabilizationWindow, andM, hasPendingPods, replicaSetsReady,
    replicationControllersReady, statefulSetsReady.
  msimpl. rewrite Hp. msimpl.
  destruct (existsb IsProvisionable pending); simpl; msimpl; [reflexivity|].
  rewrite Hrs. msimpl. destruct (allReady rs); simpl; msimpl; [|reflexivity].
  rewrite Hrc. msimpl. destruct (allReady rc); simpl; msimpl; [|reflexivity].
  rewrite Hss. msimpl. destruct (allReady ss); simpl; msimpl; reflexivity.
Qed.

(** C8, on the code: with no pending pod and a failing list of the
    ReplicaSets, [replicaSetsReady] answers true and the window is 0, not
    5 minutes. *)
Theorem stabilizationWindow_zero_when_list_fails :
  ListReplicaSets (kubeClient replicaSetListFails) [EvListPods "" (inr [])]
  = inl "the server is currently unable to handle the request"
  /\ stabilizationWindow replicaSetListFails [] =
       (0%Z,
        [EvListPods "" (inr []);
         EvListReplicaSets (inl "the server is currently unable to handle the request");
         EvListReplicationControllers (inr []);
         EvListStatefulSets (inr [])]).
Proof. split; reflexivity. Qed.

(** ** The eviction gate: canBeTerminated *)

Lemma podsPreventEviction_iff (node : candidateNode) :
  is_Some (podsPreventEviction node) <->
  (exists p, In p (pods node) /\ checkedPod p = true /\ HasDoNotEvict p = true)
  \/ (exists p, In p (pods node) /\ checkedPod p = true /\ IsNotOwned p = true).
Proof.
  unfold podsPreventEviction. generalize (pods node) as ps.
  induction ps as [|p ps IH].
  - split.
    + intros [? ?]. discriminate.
    + intros [(? & [] & _)|(? & [] & _)].
  - unfold checkedPod in *. simpl In.
    destruct (IsTerminating p || IsTerminal p || IsOwnedByNode p) eqn:Hskip.
    + rewrite IH. split.
      * intros [(q & Hq & ?)|(q & Hq & ?)]; [left|right]; exists q; auto.
      * intros [(q & [->|Hq] & Hc & ?)|(q & [->|Hq] & Hc & ?)];
          try (rewrite Hskip in Hc; discriminate);
          [left|right]; exists q; auto.
    + destruct (HasDoNotEvict p) eqn:Hdne.
      { split; [|eauto]. intros _. left. exists p. rewrite Hskip. auto. }
      destruct (IsNotOwned p) eqn:Hno.
      { split; [|eauto]. intros _. right. exists p. rewrite Hskip. auto. }
      rewrite IH. split.
      * intros [(q & Hq & ?)|(q & Hq & ?)]; [left|right]; exists q; auto.
      * intros [(q & [->|Hq] & Hc & Hd)|(q & [->|Hq] & Hc & Hd)];
          try congruence; [left|right]; exists q; auto.
Qed.

Lemma canBeTerminated_iff (node : candidateNode) (pdbs : PDBLimits) :
  is_Some (canBeTerminated node pdbs) <->
  IsZero (DeletionTimestamp (cnNode node)) = false
  \/ CanEvictPods pdbs (pods node) = false
  \/ (exists p, In p (pods node) /\ checkedPod p = true /\ HasDoNotEvict p = true)
  \/ (exists p, In p (pods node) /\ checkedPod p = true /\ IsNotOwned p = true).
Proof.
  unfold canBeTerminated.
  destruct (IsZero (DeletionTimestamp (cnNode node))); simpl.
  2: { split; eauto. }
  destruct (CanEvictPods pdbs (pods node)); simpl.
  2: { split; eauto. }
  rewrite podsPreventEviction_iff. split.
  - intros [H|H]; auto.
  - intros [H|[H|[H|H]]]; auto; discriminate.
Qed.

Lemma plannerOption_emits (c : Controller) (node : candidateNode) (h : History) :
  Forall (fun e => plannerEvent e = true)
    (trace (nodeConsolidationOptionReplaceOrDelete c node) h).
Proof.
  unfold nodeConsolidationOptionReplaceOrDelete. msimpl. events.
  destruct (NewScheduler _ _ _ _ _) as [err|scheduler]; msimpl; events.
  destruct (Solve scheduler (pods node)) as [err|[newNodes inflightNodes]];
    msimpl; events.
Qed.

Lemma calculateLifetimeRemaining_silent (c : Controller) (node : candidateNode) h :
  trace (calculateLifetimeRemaining c node) h = [].
Proof.
  unfold calculateLifetimeRemaining, sinceSeconds.
  destruct (TTLSecondsUntilExpired _); msimpl; reflexivity.
Qed.

Lemma nodeConsolidationActions_emits (c : Controller) (node : candidateNode) h :
  Forall (fun e => plannerEvent e = true) (trace (nodeConsolidationActions c node) h).
Proof.
  unfold nodeConsolidationActions. msimpl.
  rewrite calculateLifetimeRemaining_silent. msimpl. events.
  - apply plannerOption_emits.
  - destruct (value (nodeConsolidationOptionReplaceOrDelete c node) h).2;
      msimpl; events.
Qed.

(** The planner's action keeps the result and the old nodes of
    [nodeConsolidationOptionReplaceOrDelete]; only the cost is scaled. *)
Lemma nodeConsolidationActions_value (c : Controller) (node : candidateNode) h :
  exists factor,
    value (nodeConsolidationActions c node) h =
      scaleDisruptionCost (value (nodeConsolidationOptionReplaceOrDelete c node) h).1
        factor.
Proof.
  unfold nodeConsolidationActions. msimpl.
  rewrite calculateLifetimeRemaining_silent. msimpl.
  destruct (value (nodeConsolidationOptionReplaceOrDelete c node) h).2;
    msimpl; eauto.
Qed.

Lemma replaceOrDelete_oldNodes (node : candidateNode) newNodes inflightNodes :
  isDeleteOrReplace (result (replaceOrDelete node newNodes inflightNodes)) = true ->
  oldNodes (replaceOrDelete node newNodes inflightNodes) = [cnNode node].
Proof.
  unfold replaceOrDelete.
  destruct (_ && _); [reflexivity|].
  destruct newNodes as [|newNode [|? ?]]; try discriminate.
  destruct (filterByPrice _ _ _); [discriminate|].
  destruct (_ && _); [discriminate|reflexivity].
Qed.

Lemma nodeConsolidationActions_oldNodes (c : Controller) (node : candidateNode) h :
  isDeleteOrReplace (result (value (nodeConsolidationActions c node) h)) = true ->
  oldNodes (value (nodeConsolidationActions c node) h) = [cnNode node].
Proof.
  destruct (nodeConsolidationActions_value c node h) as [factor ->]. simpl.
  destruct (planner_cases c node h) as [[err ->]|[newNodes [inflightNodes ->]]]; simpl.
  - discriminate.
  - apply replaceOrDelete_oldNodes.
Qed.

(** A delete issued by [performConsolidation] is a delete of an old node of
    the action. *)
Lemma performConsolidation_delete_only (c : Controller) (a : consolidationAction) h n r :
  In (EvDeleteNode n r) (trace (performConsolidation c a) h) -> In n (oldNodes a).
Proof.
  destruct (result a) eqn:Hr.
  1, 2: unfold performConsolidation; rewrite Hr; msimpl;
        intros [H|[]]; discriminate.
  3: { rewrite (performConsolidation_Replace c a h Hr).
       set (h0 := h ++ _).
       pose proof (launchEvent_not_delete _ (launchReplacementNode_emits c a h0)) as Hnd.
       rewrite !in_app_iff. intros [H|[H|H]].
       - destruct H as [H|[H|[]]]; discriminate.
       - exfalso. unfold noDelete in Hnd. rewrite List.Forall_forall in Hnd.
         specialize (Hnd _ H). discriminate.
       - destruct (value (launchReplacementNode c a) h0).
         + destruct H as [H|[]]; discriminate.
         + exact (deleteOldNodes_only _ _ _ _ _ H). }
  all: unfold performConsolidation; rewrite Hr; msimpl;
       rewrite !in_app_iff; intros [H|[H|[[]|H]]];
       [ destruct H as [H|[]]; discriminate
       | destruct H as [H|[]]; discriminate
       | exact (deleteOldNodes_only _ _ _ _ _ H) ].
Qed.

Lemma plannerEvent_not_delete (tr : list Event) (n : Node) (r : option error) :
  Forall (fun e => plannerEvent e = true) tr -> ~ In (EvDeleteNode n r) tr.
Proof.
  intros Hall Hin. rewrite List.Forall_forall in Hall.
  specialize (Hall _ Hin). discriminate.
Qed.

(** C7: [canBeTerminated] rejects a candidate exactly when the node has a
    non-zero deletion timestamp, or the PDB limits say its pods cannot be
    evicted, or one of its pods that is neither terminating, nor terminal,
    nor owned by the node carries do-not-evict or has no owner.  A rejected
    candidate is passed over without a trace, and every delete the loop
    issues is the delete of a candidate the gate let through. *)
Theorem eviction_gate (node : candidateNode) (pdbs : PDBLimits) :
  (is_Some (canBeTerminated node pdbs) <->
   IsZero (DeletionTimestamp (cnNode node)) = false
   \/ CanEvictPods pdbs (pods node) = false
   \/ (exists p, In p (pods node) /\ checkedPod p = true /\ HasDoNotEvict p = true)
   \/ (exists p, In p (pods node) /\ checkedPod p = true /\ IsNotOwned p = true))
  /\ (forall c rest h,
        is_Some (canBeTerminated node pdbs) ->
        consolidateFirst c pdbs (node :: rest) h = consolidateFirst c pdbs rest h)
  /\ (forall c candidates h n r,
        In (EvDeleteNode n r) (trace (consolidateFirst c pdbs candidates) h) ->
        exists selected,
          In selected candidates
          /\ cnNode selected = n
          /\ canBeTerminated selected pdbs = None).
Proof.
  split; [apply canBeTerminated_iff|]. split.
  - intros c rest h [err Herr]. simpl. rewrite Herr. reflexivity.
  - intros c candidates. induction candidates as [|cand rest IH]; intros h n r Hin.
    + destruct Hin.
    + simpl in Hin.
      destruct (canBeTerminated cand pdbs) eqn:Hgate.
      { destruct (IH _ _ _ Hin) as (s & Hs & ? & ?). exists s. split; [right|]; auto. }
      rewrite trace_bind in Hin.
      apply in_app_or in Hin as [Hin|Hin].
      { exfalso.
        exact (plannerEvent_not_delete _ _ _ (nodeConsolidationActions_emits c cand h) Hin). }
      destruct (isDeleteOrReplace (result (value (nodeConsolidationActions c cand) h)))
        eqn:Hres.
      * msimpl_in Hin.
        apply performConsolidation_delete_only in Hin.
        rewrite (nodeConsolidationActions_oldNodes c cand h Hres) in Hin.
        destruct Hin as [<-|[]]. exists cand. split; [left|]; auto.
      * destruct (IH _ _ _ Hin) as (s & Hs & ? & ?). exists s. split; [right|]; auto.
Qed.

(** The gate on a node that hosts a pod without owner, and on one whose only
    pod without owner is terminating. *)
Example standalone_pod_protects_node :
  canBeTerminated
    {| cnNode := busyNode; instanceType := largeType;
       cnProvisioner := defaultProvisioner; cnDisruptionCost := 1%Q;
       pods := [samplePod "web"; standalonePod "job"] |} allowAll
  = Some "found pod with no controller"
  /\ canBeTerminated
       {| cnNode := busyNode; instanceType := largeType;
          cnProvisioner := defaultProvisioner; cnDisruptionCost := 1%Q;
          pods := [samplePod "web"; terminatingPod "job"] |} allowAll
     = None.
Proof. split; reflexivity. Qed.

(** ** The candidate selector: candidateNodes *)

Lemma foldM_emits {A B} (P : Event -> Prop) (f : B -> A -> M B) (l : list A) :
  (forall b x h, Forall P (trace (f b x) h)) ->
  forall b h, Forall P (trace (foldM f l b) h).
Proof.
  intros Hf. induction l as [|x l IH]; intros b h; simpl.
  - constructor.
  - rewrite trace_bind. apply Forall_app_intro; [apply Hf | apply IH].
Qed.

Lemma buildProvisionerMap_emits (c : Controller) (h : History) :
  Forall (fun e => selectorEvent e = true) (trace (buildProvisionerMap c) h).
Proof.
  unfold buildProvisionerMap. msimpl. events.
  destruct (ListProvisioners _ _) as [err|items]; msimpl; events.
  apply foldM_emits. intros acc p h'.
  unfold buildProvisionerMapStep.
  destruct acc as [err|[provisioners its]]; msimpl; events.
  destruct (GetInstanceTypes _ _ _); msimpl; events.
Qed.

Lemma getNodePods_emits (c : Controller) (name : string) (h : History) :
  Forall (fun e => selectorEvent e = true) (trace (getNodePods c name) h).
Proof.
  unfold getNodePods. msimpl. events.
  destruct (ListPods _ _ _); msimpl; events.
Qed.

Lemma candidateNodesVisit_emits (c : Controller) (pm : ProvisionerMap) acc n h :
  Forall (fun e => selectorEvent e = true) (trace (candidateNodesVisit c pm acc n) h).
Proof.
  unfold candidateNodesVisit. destruct acc as [nodes uninit].
  destruct (resolveNode pm (stNode n)) as [[prov it]|]; msimpl; events.
  destruct uninit; msimpl; events.
  destruct (negb _); msimpl; events.
  destruct (String.eqb _ _); msimpl; events.
  destruct (IsNodeNominated _ _ _); msimpl; events.
  - apply getNodePods_emits.
  - destruct (value (getNodePods c (Name (stNode n))) h); msimpl; events.
Qed.

Lemma candidateNodes_emits (c : Controller) (h : History) :
  Forall (fun e => selectorEvent e = true) (trace (candidateNodes c) h).
Proof.
  unfold candidateNodes. msimpl. events.
  - apply buildProvisionerMap_emits.
  - destruct (value (buildProvisionerMap c) h) as [err|pm]; msimpl; events.
    + apply foldM_emits. intros. apply candidateNodesVisit_emits.
    + destruct (value (foldM _ _ _) _).2; msimpl; events.
Qed.

Lemma selectorEvent_noMutation (tr : list Event) :
  Forall (fun e => selectorEvent e = true) tr -> noMutation tr.
Proof.
  apply List.Forall_impl. intros e He. destruct e; try reflexivity; discriminate.
Qed.

(** Once the flag [uninitializedNodeExists] is set it stays set, and a node
    that reaches the initialized check without the value "true" sets it. *)
Lemma candidateNodesVisit_flag (c : Controller) (pm : ProvisionerMap) acc n h :
  acc.2 = true \/ uninitializedCandidate pm n ->
  (value (candidateNodesVisit c pm acc n) h).2 = true.
Proof.
  unfold candidateNodesVisit, uninitializedCandidate.
  destruct acc as [nodes uninit]. simpl.
  intros [->|[[[prov it] Hres] Hlabel]].
  - destruct (resolveNode pm (stNode n)) as [[prov it]|]; reflexivity.
  - rewrite Hres. destruct uninit; [reflexivity|].
    destruct (String.eqb_spec (mapGet (Labels (stNode n)) LabelNodeInitialized) "true")
      as [Heq|_]; [contradiction|]. reflexivity.
Qed.

Lemma candidateNodes_flag (c : Controller) (pm : ProvisionerMap) (ns : list StateNode) :
  forall acc h,
    acc.2 = true \/ (exists n, In n ns /\ uninitializedCandidate pm n) ->
    (value (foldM (candidateNodesVisit c pm) ns acc) h).2 = true.
Proof.
  induction ns as [|n ns IH]; intros acc h Hc; simpl.
  - destruct Hc as [H|(? & [] & _)]. exact H.
  - rewrite value_bind. apply IH.
    destruct Hc as [H|(n' & [->|Hin] & Hn)].
    + left. apply candidateNodesVisit_flag. auto.
    + left. apply candidateNodesVisit_flag. auto.
    + right. eauto.
Qed.

(** C2, as the code has it: when the provisioners and their instance types
    were listed, and some node of the fleet that belongs to a known
    provisioner with consolidation enabled and has an instance type of that
    provisioner carries an initialized label other than "true", the tick ends
    with NothingToDo and has launched, patched and deleted nothing. *)
Theorem uninitialized_candidate_aborts_tick (c : Controller)
    (sortSlice : (candidateNode -> candidateNode -> bool) ->
                 list candidateNode -> list candidateNode)
    (h : History) (pm : ProvisionerMap) :
  value (buildProvisionerMap c) h = inr pm ->
  (exists n,
     In n (ForEachNode (cluster c) (h ++ trace (buildProvisionerMap c) h))
     /\ uninitializedCandidate pm n) ->
  value (ProcessCluster c sortSlice) h = (ProcessResultNothingToDo, None)
  /\ noMutation (trace (ProcessCluster c sortSlice) h).
Proof.
  intros Hpm Hex.
  assert (Hcand : value (candidateNodes c) h = inr []).
  { unfold candidateNodes. msimpl. rewrite Hpm. msimpl.
    rewrite candidateNodes_flag by (right; exact Hex). reflexivity. }
  unfold ProcessCluster. msimpl. rewrite Hcand. simpl. msimpl.
  split; [reflexivity|].
  apply selectorEvent_noMutation, candidateNodes_emits.
Qed.

Lemma uninitialized_candidate_aborts_tick_witness :
  uninitializedCandidate defaultProvisionerMap (Build_StateNode uninitializedNode)
  /\ value (ProcessCluster uninitializedFleet insertionSort) []
     = (ProcessResultNothingToDo, None)
  /\ noMutation (trace (ProcessCluster uninitializedFleet insertionSort) []).
Proof.
  assert (Hun : uninitializedCandidate defaultProvisionerMap
                  (Build_StateNode uninitializedNode)).
  { split; [vm_compute; eauto | vm_compute; discriminate]. }
  split; [exact Hun|].
  apply (uninitialized_candidate_aborts_tick uninitializedFleet insertionSort []
           defaultProvisionerMap).
  - reflexivity.
  - exists (Build_StateNode uninitializedNode). split; [|exact Hun].
    right. left. reflexivity.
Defined.

(** C2 as the spec states it fails: a node without the initialized label that
    no known provisioner owns does not stop the tick; the empty node next to
    it is deleted. *)
Lemma unmanaged_uninitialized_node_does_not_abort :
  In (Build_StateNode unmanagedNode) (ForEachNode (cluster unmanagedFleet) [])
  /\ mapGet (Labels unmanagedNode) LabelNodeInitialized <> "true"
  /\ value (ProcessCluster unmanagedFleet insertionSort) []
     = (ProcessResultConsolidated, None)
  /\ In (EvDeleteNode emptyNode None)
        (trace (ProcessCluster unmanagedFleet insertionSort) []).
Proof.
  split; [left; reflexivity|].
  split; [vm_compute; discriminate|].
  split; [vm_compute; reflexivity|].
  in_trace.
Qed.

(** ** The empty-node fast path of ProcessCluster *)

Lemma getNodePods_no_reschedulable (c : Controller) (name : string) (h : History)
    (items : list Pod) :
  ListPods (kubeClient c) h name = inr items ->
  Forall (fun p => IsOwnedByNode p || IsOwnedByDaemonSet p || IsTerminal p = true) items ->
  value (getNodePods c name) h = inr [].
Proof.
  intros Hl Hall. unfold getNodePods. msimpl. rewrite Hl. msimpl.
  f_equal. clear Hl. induction Hall as [|p ps Hp _ IH]; simpl; [reflexivity|].
  rewrite Hp. simpl. exact IH.
Qed.

Lemma performConsolidation_DeleteEmpty (c : Controller) (emptyNodes : list candidateNode) h :
  trace (performConsolidation c (deleteEmptyAction emptyNodes)) h =
    [EvCounterAdd counterActionsPerformed; EvLogInfo "Consolidating via "]
    ++ trace (deleteOldNodes c (map cnNode emptyNodes))
         (h ++ [EvCounterAdd counterActionsPerformed; EvLogInfo "Consolidating via "]).
Proof. unfold performConsolidation. simpl. msimpl. reflexivity. Qed.

Lemma filter_empty_In (candidates : list candidateNode) (n : candidateNode) :
  In n (List.filter (fun n => (length (pods n) =? 0)%nat) candidates)
  <-> In n candidates /\ pods n = [].
Proof.
  rewrite List.filter_In. split; intros [Hin Hp]; split; auto.
  - apply Nat.eqb_eq in Hp. now destruct (pods n).
  - rewrite Hp. reflexivity.
Qed.

(** C9: when some candidate has no reschedulable pod, ProcessCluster performs
    one DeleteEmpty action over all the candidates without pods and answers
    Consolidated.  A delete is issued for each of them and for no other node;
    nothing is launched or patched, the PodDisruptionBudgets are not listed,
    and neither the deletion timestamp of the node nor any PDB is consulted.
    A node whose pods are all owned by the node or by a daemonset, or are
    terminal, has no reschedulable pod. *)
Theorem empty_nodes_deleted_without_gate (c : Controller)
    (sortSlice : (candidateNode -> candidateNode -> bool) ->
                 list candidateNode -> list candidateNode)
    (h : History) (candidates : list candidateNode) :
  value (candidateNodes c) h = inr candidates ->
  (exists n, In n candidates /\ pods n = []) ->
  let emptyNodes := List.filter (fun n => (length (pods n) =? 0)%nat) candidates in
  let tr := trace (ProcessCluster c sortSlice) h in
  value (ProcessCluster c sortSlice) h = (ProcessResultConsolidated, None)
  /\ tr = trace (candidateNodes c) h
          ++ trace (performConsolidation c (deleteEmptyAction emptyNodes))
               (h ++ trace (candidateNodes c) h)
  /\ (forall n, In n candidates -> pods n = [] ->
      exists r, In (EvDeleteNode (cnNode n) r) tr)
  /\ (forall n r, In (EvDeleteNode n r) tr ->
      exists cand, In cand candidates /\ pods cand = [] /\ cnNode cand = n)
  /\ Forall (fun e => isNewPDBLimits e = false) tr
  /\ Forall (fun e => isMutation e = true -> isDelete e = true) tr
  /\ (forall name h' items,
        ListPods (kubeClient c) h' name = inr items ->
        Forall (fun p => IsOwnedByNode p || IsOwnedByDaemonSet p || IsTerminal p = true)
          items ->
        value (getNodePods c name) h' = inr []).
Proof.
  intros Hcand (n0 & Hin0 & Hp0) emptyNodes tr.
  assert (Hne : (length candidates =? 0)%nat = false).
  { destruct candidates; [destruct Hin0|reflexivity]. }
  assert (Hempty : (0 <? length emptyNodes)%nat = true).
  { assert (In n0 emptyNodes) as Hin by (apply filter_empty_In; auto).
    destruct emptyNodes; [destruct Hin|reflexivity]. }
  assert (Htr : tr = trace (candidateNodes c) h
                     ++ trace (performConsolidation c (deleteEmptyAction emptyNodes))
                          (h ++ trace (candidateNodes c) h)).
  { subst tr. unfold ProcessCluster. msimpl. rewrite Hcand, Hne. fold emptyNodes.
    rewrite Hempty. msimpl. reflexivity. }
  pose proof (candidateNodes_emits c h) as Hsel.
  set (tc := trace (candidateNodes c) h) in *.
  pose proof (performConsolidation_DeleteEmpty c emptyNodes (h ++ tc)) as Hperf.
  pose proof (deleteOldNodes_emits c (map cnNode emptyNodes)
                ((h ++ tc) ++ [EvCounterAdd counterActionsPerformed;
                               EvLogInfo "Consolidating via "])) as Hdel.
  split; [|split; [exact Htr|]].
  { unfold ProcessCluster. msimpl. rewrite Hcand, Hne. fold emptyNodes.
    rewrite Hempty. msimpl. reflexivity. }
  rewrite Htr, Hperf. repeat split.
  - intros n Hin Hp.
    destruct (deleteOldNodes_issues c (map cnNode emptyNodes) (cnNode n)
                ((h ++ tc) ++ [EvCounterAdd counterActionsPerformed;
                               EvLogInfo "Consolidating via "])) as [r Hr].
    { apply in_map. apply filter_empty_In. auto. }
    exists r. rewrite !in_app_iff. auto.
  - intros n r. rewrite !in_app_iff. intros [H|[H|H]].
    + exfalso. rewrite List.Forall_forall in Hsel. specialize (Hsel _ H). discriminate.
    + destruct H as [H|[H|[]]]; discriminate.
    + apply deleteOldNodes_only in H. apply in_map_iff in H as (cand & <- & Hc).
      apply filter_empty_In in Hc as [? ?]. eauto.
  - repeat apply Forall_app_intro.
    + eapply List.Forall_impl; [|exact Hsel]. intros e He. now destruct e.
    + repeat constructor.
    + eapply List.Forall_impl; [|exact Hdel]. intros e He. now destruct e.
  - repeat apply Forall_app_intro.
    + eapply List.Forall_impl; [|exact Hsel]. intros e He. now destruct e.
    + repeat constructor; discriminate.
    + eapply List.Forall_impl; [|exact Hdel]. intros e He. now destruct e.
  - intros name h' items. apply getNodePods_no_reschedulable.
Qed.

Lemma empty_nodes_deleted_without_gate_witness :
  is_Some (canBeTerminated deletingCandidate allowNone)
  /\ value (ProcessCluster deletingFleet insertionSort) []
     = (ProcessResultConsolidated, None)
  /\ exists r, In (EvDeleteNode deletingNode r)
                  (trace (ProcessCluster deletingFleet insertionSort) []).
Proof.
  split; [vm_compute; eauto|].
  destruct (empty_nodes_deleted_without_gate deletingFleet insertionSort []
              (match value (candidateNodes deletingFleet) [] with
               | inr cs => cs
               | inl _ => []
               end))
    as (Hv & _ & Hdel & _).
  - vm_compute. reflexivity.
  - exists deletingCandidate. split; [|reflexivity]. vm_compute. left. reflexivity.
  - split; [exact Hv|].
    apply (Hdel deletingCandidate); [|reflexivity].
    vm_compute. left. reflexivity.
Defined.

(** ** The order of examination and the loop of ProcessCluster *)

Lemma byNodeDisruptionCost_false (a b : candidateNode) :
  byNodeDisruptionCost b a = false <-> ascending a b.
Proof.
  unfold byNodeDisruptionCost, ascending, Before.
  destruct (Qeq_bool (cnDisruptionCost b) (cnDisruptionCost a)) eqn:Heq.
  - apply Qeq_bool_iff in Heq. rewrite Z.ltb_ge. split.
    + intros H. right. split; [lra | exact H].
    + intros [H|[_ H]]; [lra | exact H].
  - apply Qeq_bool_neq in Heq. split.
    + intros H. left. destruct (Qlt_le_dec (cnDisruptionCost a) (cnDisruptionCost b))
        as [Hlt|Hle]; [exact Hlt|].
      exfalso. assert (Hba : (cnDisruptionCost b < cnDisruptionCost a)%Q).
      { apply Qle_lt_or_eq in Hle as [?|?]; [assumption|contradiction]. }
      apply Qltb_lt in Hba. congruence.
    + intros [H|[H _]].
      * destruct (Qltb (cnDisruptionCost b) (cnDisruptionCost a)) eqn:E; [|reflexivity].
        apply Qltb_lt in E. lra.
      * exfalso. apply Heq. lra.
Qed.

Lemma byNodeDisruptionCost_true (a b : candidateNode) :
  byNodeDisruptionCost a b = true -> ascending a b.
Proof.
  unfold byNodeDisruptionCost, ascending, Before.
  destruct (Qeq_bool (cnDisruptionCost a) (cnDisruptionCost b)) eqn:Heq.
  - apply Qeq_bool_iff in Heq. rewrite Z.ltb_lt. intros H. right. split; [exact Heq|lia].
  - intros H. apply Qltb_lt in H. left. exact H.
Qed.

Lemma ascending_trans (a b d : candidateNode) :
  ascending a b -> ascending b d -> ascending a d.
Proof.
  unfold ascending. intros [H1|[H1 T1]] [H2|[H2 T2]].
  - left. lra.
  - left. lra.
  - left. lra.
  - right. split; [lra|lia].
Qed.

Lemma sorted_ascending (l : list candidateNode) :
  StronglySorted (fun a b => byNodeDisruptionCost b a = false) l ->
  StronglySorted ascending l.
Proof.
  induction 1 as [|x l Hl IH Hx]; constructor; [exact IH|].
  eapply List.Forall_impl; [|exact Hx]. intros y. apply byNodeDisruptionCost_false.
Qed.

(** Insertion sort meets the contract. *)
Lemma insertSorted_perm {A} (less : A -> A -> bool) (x : A) (l : list A) :
  Permutation (x :: l) (insertSorted less x l).
Proof.
  induction l as [|y l IH]; simpl; [reflexivity|].
  destruct (less y x); [|reflexivity].
  rewrite perm_swap. constructor. exact IH.
Qed.

Lemma insertionSort_perm {A} (less : A -> A -> bool) (l : list A) :
  Permutation l (insertionSort less l).
Proof.
  induction l as [|x l IH]; simpl; [constructor|].
  rewrite <- insertSorted_perm. constructor. exact IH.
Qed.

Lemma insertSorted_ascending (x : candidateNode) (l : list candidateNode) :
  StronglySorted ascending l ->
  StronglySorted ascending (insertSorted byNodeDisruptionCost x l).
Proof.
  induction 1 as [|y l Hl IH Hy]; simpl.
  - repeat constructor.
  - destruct (byNodeDisruptionCost y x) eqn:Hless.
    + constructor; [exact IH|].
      rewrite <- (insertSorted_perm byNodeDisruptionCost x l).
      constructor; [now apply byNodeDisruptionCost_true | exact Hy].
    + apply byNodeDisruptionCost_false in Hless.
      constructor; [constructor; assumption|].
      constructor; [exact Hless|].
      eapply List.Forall_impl; [|exact Hy]. intros z. now apply ascending_trans.
Qed.

Lemma insertionSort_contract : sortContract (@insertionSort candidateNode).
Proof.
  intros l. split; [apply insertionSort_perm|].
  assert (Hs : StronglySorted ascending (insertionSort byNodeDisruptionCost l)).
  { induction l as [|x l IH]; simpl; [constructor|].
    now apply insertSorted_ascending. }
  induction Hs as [|x l' Hl IH Hx]; constructor; [exact IH|].
  eapply List.Forall_impl; [|exact Hx]. intros y. apply byNodeDisruptionCost_false.
Qed.

(** The loop, characterised. *)
Lemma consolidateFirst_outcome (c : Controller) (pdbs : PDBLimits)
    (candidates : list candidateNode) :
  forall h,
    FirstConsolidated c pdbs h candidates
      (value (consolidateFirst c pdbs candidates) h)
      (trace (consolidateFirst c pdbs candidates) h).
Proof.
  induction candidates as [|node rest IH]; intros h.
  - left. split; [reflexivity|constructor].
  - simpl. destruct (canBeTerminated node pdbs) as [err|] eqn:Hgate.
    + destruct (IH h) as [[Hres Hpo]|(before & n & after & t & -> & Hpo & Hg & Ha & Htr & Hres)].
      * left. split; [exact Hres|]. apply PassedOver_rejected; eauto.
      * right. exists (node :: before), n, after, t.
        repeat split; auto. apply PassedOver_rejected; eauto.
    + rewrite value_bind, trace_bind.
      set (tp := trace (nodeConsolidationActions c node) h).
      destruct (isDeleteOrReplace (result (value (nodeConsolidationActions c node) h)))
        eqn:Hres.
      * right. exists [], node, rest, [].
        rewrite !app_nil_r. simpl. msimpl.
        repeat split; auto. constructor.
      * destruct (IH (h ++ tp))
          as [[Hr Hpo]|(before & n & after & t & -> & Hpo & Hg & Ha & Htr & Hr)].
        -- left. split; [exact Hr|]. apply PassedOver_planned; auto.
        -- right. exists (node :: before), n, after, (tp ++ t).
           rewrite <- !app_assoc in *.
           repeat split; auto.
           ++ apply PassedOver_planned; auto.
           ++ rewrite Htr. reflexivity.
Qed.

Lemma PassedOver_emits (c : Controller) (pdbs : PDBLimits) h cs t :
  PassedOver c pdbs h cs t -> Forall (fun e => plannerEvent e = true) t.
Proof.
  induction 1; [constructor|assumption|].
  apply Forall_app_intro; [apply nodeConsolidationActions_emits|assumption].
Qed.

Lemma actionsPerformed_app (l1 l2 : list Event) :
  actionsPerformed (l1 ++ l2) = actionsPerformed l1 + actionsPerformed l2.
Proof. unfold actionsPerformed. now rewrite List.filter_app, length_app. Qed.

Lemma actionsPerformed_none (P : Event -> bool) (l : list Event) :
  (forall e, P e = true -> isActionPerformed e = false) ->
  Forall (fun e => P e = true) l -> actionsPerformed l = 0.
Proof.
  intros HP Hall. unfold actionsPerformed.
  induction Hall as [|e l He _ IH]; simpl; [reflexivity|].
  rewrite (HP _ He). exact IH.
Qed.

Lemma plannerEvent_not_performed e : plannerEvent e = true -> isActionPerformed e = false.
Proof. destruct e; try reflexivity; discriminate. Qed.

Lemma selectorEvent_not_performed e : selectorEvent e = true -> isActionPerformed e = false.
Proof. destruct e; try reflexivity; discriminate. Qed.

Lemma launchEvent_not_performed e : launchEvent e = true -> isActionPerformed e = false.
Proof.
  destruct e; try reflexivity; try discriminate. simpl.
  intros H. apply String.eqb_eq in H. subst. reflexivity.
Qed.

Lemma deleteEvent_not_performed e : deleteEvent e = true -> isActionPerformed e = false.
Proof.
  destruct e; try reflexivity; try discriminate. simpl.
  intros H. apply String.eqb_eq in H. subst. reflexivity.
Qed.

(** One call of [performConsolidation] counts at most one action. *)
Lemma performConsolidation_once (c : Controller) (a : consolidationAction) h :
  actionsPerformed (trace (performConsolidation c a) h) <= 1.
Proof.
  assert (Hdel : forall ns h', actionsPerformed (trace (deleteOldNodes c ns) h') = 0).
  { intros. eapply actionsPerformed_none;
      [exact deleteEvent_not_performed | apply deleteOldNodes_emits]. }
  destruct (result a) eqn:Hr.
  1, 2: unfold performConsolidation; rewrite Hr; msimpl; cbv; lia.
  3: { rewrite (performConsolidation_Replace c a h Hr).
       rewrite !actionsPerformed_app.
       rewrite (actionsPerformed_none _ _ launchEvent_not_performed
                  (launchReplacementNode_emits c a _)).
       destruct (value (launchReplacementNode c a) _); [cbv; lia|].
       rewrite Hdel. cbv. lia. }
  all: unfold performConsolidation; rewrite Hr; msimpl;
       rewrite !actionsPerformed_app, Hdel; cbv; lia.
Qed.

(** C6: in a tick whose candidates all have pods, the candidates are
    examined in ascending order of disruption cost, the older node first
    among equal costs; the first candidate that passes the gate and is
    planned a Delete or a Replace has that action performed, and the tick
    ends there; at most one action is performed. *)
Theorem first_consolidatable_candidate_executed (c : Controller)
    (sortSlice : (candidateNode -> candidateNode -> bool) ->
                 list candidateNode -> list candidateNode)
    (h : History) (candidates : list candidateNode) (pdbs : PDBLimits) :
  sortContract sortSlice ->
  value (candidateNodes c) h = inr candidates ->
  candidates <> [] ->
  Forall (fun n => pods n <> []) candidates ->
  NewPDBLimits (kubeClient c) (h ++ trace (candidateNodes c) h) = inr pdbs ->
  let sorted := sortSlice byNodeDisruptionCost candidates in
  let h2 := h ++ trace (candidateNodes c) h ++ [EvNewPDBLimits (inr pdbs)] in
  let tr := trace (consolidateFirst c pdbs sorted) h2 in
  Permutation candidates sorted
  /\ StronglySorted ascending sorted
  /\ trace (ProcessCluster c sortSlice) h =
       trace (candidateNodes c) h ++ [EvNewPDBLimits (inr pdbs)] ++ tr
  /\ FirstConsolidated c pdbs h2 sorted (value (ProcessCluster c sortSlice) h) tr
  /\ actionsPerformed (trace (ProcessCluster c sortSlice) h) <= 1.
Proof.
  intros Hsort Hcand Hne Hpods Hpdb sorted h2 tr.
  destruct (Hsort candidates) as [Hperm Hsorted].
  assert (Hlen : (length candidates =? 0)%nat = false).
  { destruct candidates; [contradiction|reflexivity]. }
  assert (Hempty : List.filter (fun n => (length (pods n) =? 0)%nat) candidates = []).
  { clear -Hpods. induction Hpods as [|n l Hn _ IH]; simpl; [reflexivity|].
    destruct (pods n); [contradiction|]. exact IH. }
  assert (Hv : value (ProcessCluster c sortSlice) h
               = value (consolidateFirst c pdbs sorted) h2).
  { unfold ProcessCluster. msimpl. rewrite Hcand, Hlen, Hempty. simpl. msimpl.
    rewrite Hpdb. reflexivity. }
  assert (Ht : trace (ProcessCluster c sortSlice) h
               = trace (candidateNodes c) h ++ [EvNewPDBLimits (inr pdbs)] ++ tr).
  { unfold ProcessCluster. msimpl. rewrite Hcand, Hlen, Hempty. simpl. msimpl.
    rewrite Hpdb. reflexivity. }
  pose proof (consolidateFirst_outcome c pdbs sorted h2) as Hout. fold tr in Hout.
  split; [exact Hperm|]. split; [now apply sorted_ascending|].
  split; [exact Ht|]. split; [rewrite Hv; exact Hout|].
  rewrite Ht, !actionsPerformed_app.
  rewrite (actionsPerformed_none _ _ selectorEvent_not_performed (candidateNodes_emits c h)).
  change (actionsPerformed [EvNewPDBLimits (inr pdbs)]) with 0.
  destruct Hout as [[_ Hpo]|(before & node & after & t & _ & Hpo & _ & _ & -> & _)].
  - rewrite (actionsPerformed_none _ _ plannerEvent_not_performed
               (PassedOver_emits _ _ _ _ _ Hpo)). lia.
  - rewrite !actionsPerformed_app.
    rewrite (actionsPerformed_none _ _ plannerEvent_not_performed
               (PassedOver_emits _ _ _ _ _ Hpo)).
    rewrite (actionsPerformed_none _ _ plannerEvent_not_performed
               (nodeConsolidationActions_emits c node _)).
    pose proof (performConsolidation_once c
                  (value (nodeConsolidationActions c node) (h2 ++ t))
                  (h2 ++ t ++ trace (nodeConsolidationActions c node) (h2 ++ t))).
    lia.
Qed.

Lemma first_consolidatable_candidate_executed_witness :
  map (fun n => Name (cnNode n))
    (insertionSort byNodeDisruptionCost (candidatesOf twoBusyNodes)) = ["older"; "younger"]
  /\ value (ProcessCluster twoBusyNodes insertionSort) [] = (ProcessResultConsolidated, None)
  /\ In (EvDeleteNode olderNode None) (trace (ProcessCluster twoBusyNodes insertionSort) [])
  /\ actionsPerformed (trace (ProcessCluster twoBusyNodes insertionSort) []) <= 1.
Proof.
  split; [vm_compute; reflexivity|].
  split; [vm_compute; reflexivity|].
  split; [in_trace|].
  refine (proj2 (proj2 (proj2 (proj2
    (first_consolidatable_candidate_executed twoBusyNodes insertionSort []
       (candidatesOf twoBusyNodes) allowAll insertionSort_contract _ _ _ _))))).
  - vm_compute. reflexivity.
  - vm_compute. discriminate.
  - vm_compute. repeat constructor; discriminate.
  - reflexivity.
Defined.
